(** * Hotel reservation system: a shallow embedding and its properties

    The development follows the layout of the Python package
    [hotel_reservation]:

    - [PyStr]     : the pieces of Python's [str] and [re] the parser calls
                    ([strip], [split], [re.sub] with the pattern of the parser);
    - [PyDatetime]: the pieces of [datetime] the system calls ([strptime] with
                    the format of the parser, [weekday]), after CPython's
                    pure-Python implementation ([_pydatetime.py], [_strptime.py]);
    - [PyList]    : [list.sort] with a key, as a stable sort;
    - [Models]    : [models.py] ([CustomerType], [DayType], [Hotel]);
    - [System]    : [system.py] ([HotelReservationSystem]);
    - [TestUtils] : the expected-cost helper of [tests/__init__.py];
    - [Gregorian] : the calendar and its week, stated without [datetime].

    A Python [str] is modelled as a list of code points below 256 (Rocq's
    [ascii]); Python integers are modelled as [Z]; a raised exception is an
    explicit [Raise] result. *)

From Stdlib Require Import ZArith List Ascii String Bool Lia.
From Stdlib Require Import Permutation Sorted.
Import ListNotations.

Open Scope Z_scope.
Open Scope list_scope.

(** ** Strings, exceptions *)

Definition str := list ascii.

Definition lit (s : string) : str := list_ascii_of_string s.
Arguments lit s%_string.

(** The exceptions the package can raise. [ValueError] carries [str(e)]. *)
Inductive exn : Type :=
| ValueError (msg : str)
| IndexError.

Definition exn_str (e : exn) : str :=
  match e with
  | ValueError msg => msg
  | IndexError => lit "list index out of range"
  end.

Inductive result (A : Type) : Type :=
| Ok (a : A)
| Raise (e : exn).
Arguments Ok {A} a.
Arguments Raise {A} e.

Definition bind {A B : Type} (m : result A) (k : A -> result B) : result B :=
  match m with
  | Ok a => k a
  | Raise e => Raise e
  end.

Notation "x <- m ;; k" := (bind m (fun x => k))
  (at level 61, m at next level, right associativity).
Notation "' pat <- m ;; k" := (bind m (fun x => match x with pat => k end))
  (at level 61, pat pattern, m at next level, right associativity).

(** ** Python's [str] and [re] *)

Module PyStr.

Definition code (c : ascii) : Z := Z.of_nat (nat_of_ascii c).

(** [a == b] on strings. *)
Fixpoint str_eqb (a b : str) : bool :=
  match a, b with
  | [], [] => true
  | x :: a', y :: b' => Ascii.eqb x y && str_eqb a' b'
  | _, _ => false
  end.

(** [str.isspace] on the code points below 256: TAB..CR, FS..US, space,
    NEL and NBSP. *)
Definition isspace (c : ascii) : bool :=
  let n := code c in
  ((9 <=? n) && (n <=? 13)) || ((28 <=? n) && (n <=? 32))
  || (n =? 133) || (n =? 160).

Fixpoint lstrip (s : str) : str :=
  match s with
  | c :: r => if isspace c then lstrip r else s
  | [] => []
  end.

Definition rstrip (s : str) : str := rev (lstrip (rev s)).

(** [s.strip()] *)
Definition strip (s : str) : str := lstrip (rstrip s).

(** [s.split(sep)] for a one-character separator: every occurrence splits,
    and the result is never empty ([''.split(',') == ['']]). *)
Fixpoint split (sep : ascii) (s : str) : list str :=
  match s with
  | [] => [[]]
  | c :: r =>
      if Ascii.eqb c sep then [] :: split sep r
      else match split sep r with
           | t :: ts => (c :: t) :: ts
           | [] => [[c]]
           end
  end.

(** [s.split(sep, 1)]: split at the first occurrence only. *)
Fixpoint split1 (sep : ascii) (s : str) : list str :=
  match s with
  | [] => [[]]
  | c :: r =>
      if Ascii.eqb c sep then [[]; r]
      else match split1 sep r with
           | t :: ts => (c :: t) :: ts
           | [] => [[c]]
           end
  end.

(** [re.sub(r"\([^)]*\)", "", s)].  The scanner is in one of two states:
    outside a match ([inside = false]) or after the opening parenthesis of
    a match that is known to close ([inside = true]).  An opening
    parenthesis starts a match only when a closing one follows somewhere
    ([[^)]*] crosses every other character); otherwise it is copied. *)
Definition has_close (s : str) : bool := existsb (Ascii.eqb ")"%char) s.

Fixpoint re_sub_scan (inside : bool) (s : str) : str :=
  match s with
  | [] => []
  | c :: r =>
      if inside then
        if Ascii.eqb c ")"%char then re_sub_scan false r
        else re_sub_scan true r
      else if Ascii.eqb c "("%char && has_close r then re_sub_scan true r
      else c :: re_sub_scan false r
  end.

Definition re_sub_parens (s : str) : str := re_sub_scan false s.

End PyStr.

(** ** Python's [datetime] *)

Module PyDatetime.
Import PyStr.

(** A [datetime] built by [strptime] with a date-only format: the time of
    day is midnight and is left out. *)
Record datetime : Type := mkDate { year : Z; month : Z; day : Z }.

Definition MINYEAR : Z := 1.
Definition MAXYEAR : Z := 9999.

Definition _is_leap (y : Z) : bool :=
  (y mod 4 =? 0) && (negb (y mod 100 =? 0) || (y mod 400 =? 0)).

Definition _DAYS_IN_MONTH : list Z :=
  [-1; 31; 28; 31; 30; 31; 30; 31; 31; 30; 31; 30; 31].

Definition _DAYS_BEFORE_MONTH : list Z :=
  [-1; 0; 31; 59; 90; 120; 151; 181; 212; 243; 273; 304; 334].

Definition _days_before_year (y0 : Z) : Z :=
  let y := y0 - 1 in
  y * 365 + y / 4 - y / 100 + y / 400.

Definition _days_in_month (y m : Z) : Z :=
  if (m =? 2) && _is_leap y then 29
  else nth (Z.to_nat m) _DAYS_IN_MONTH 0.

Definition _days_before_month (y m : Z) : Z :=
  nth (Z.to_nat m) _DAYS_BEFORE_MONTH 0
  + (if (2 <? m) && _is_leap y then 1 else 0).

Definition _ymd2ord (y m d : Z) : Z :=
  _days_before_year y + _days_before_month y m + d.

Definition toordinal (dt : datetime) : Z :=
  _ymd2ord (year dt) (month dt) (day dt).

(** [date.weekday()]: Monday is 0, Sunday is 6. *)
Definition weekday (dt : datetime) : Z := (toordinal dt + 6) mod 7.

(** The checks of the [datetime] constructor ([_check_date_fields]). *)
Definition check_date_fields (y m d : Z) : bool :=
  (MINYEAR <=? y) && (y <=? MAXYEAR)
  && (1 <=? m) && (m <=? 12)
  && (1 <=? d) && (d <=? _days_in_month y m).

Definition datetime_new (y m d : Z) : option datetime :=
  if check_date_fields y m d then Some (mkDate y m d) else None.

(** *** [datetime.strptime(s, "%d%b%Y")]

    [_strptime.py] turns the format into the regular expression
    [(?P<d>3[0-1]|[1-2]\d|0[1-9]|[1-9]| [1-9])(?P<b>jan|feb|...|dec)(?P<Y>\d\d\d\d)],
    compiled with [IGNORECASE] (month names of the C locale), matches it at
    the start of the string, refuses unconverted trailing data, converts
    the groups with [int] and [a_month.index] and hands the fields to the
    [datetime] constructor.  Every failure is a [ValueError]; the parser
    discards its message, so failure is modelled as [None]. *)

Definition in_range (lo hi c : ascii) : bool :=
  (code lo <=? code c) && (code c <=? code hi).

Definition is_digit (c : ascii) : bool := in_range "0" "9" c.

(** [str.lower] on the code points below 256. *)
Definition lower (c : ascii) : ascii :=
  let n := code c in
  if ((65 <=? n) && (n <=? 90))
     || ((192 <=? n) && (n <=? 222) && negb (n =? 215))
  then ascii_of_nat (Z.to_nat (n + 32)) else c.

(** [locale_time.a_month], with the empty entry at index 0. *)
Definition a_month : list str :=
  [lit ""; lit "jan"; lit "feb"; lit "mar"; lit "apr"; lit "may"; lit "jun";
   lit "jul"; lit "aug"; lit "sep"; lit "oct"; lit "nov"; lit "dec"].

(** [l.index(x)] *)
Fixpoint index (x : str) (l : list str) : option Z :=
  match l with
  | [] => None
  | y :: r => if str_eqb y x then Some 0
              else match index x r with
                   | Some i => Some (i + 1)
                   | None => None
                   end
  end.

(** The alternatives of group [d], in the order of the pattern; each
    yields the matched text and the rest of the input. *)
Definition re_d (s : str) : list (str * str) :=
  (match s with
   | c1 :: c2 :: r =>
       if Ascii.eqb c1 "3" && in_range "0" "1" c2 then [([c1; c2], r)] else []
   | _ => []
   end)
  ++ (match s with
      | c1 :: c2 :: r =>
          if in_range "1" "2" c1 && is_digit c2 then [([c1; c2], r)] else []
      | _ => []
      end)
  ++ (match s with
      | c1 :: c2 :: r =>
          if Ascii.eqb c1 "0" && in_range "1" "9" c2 then [([c1; c2], r)] else []
      | _ => []
      end)
  ++ (match s with
      | c1 :: r => if in_range "1" "9" c1 then [([c1], r)] else []
      | _ => []
      end)
  ++ (match s with
      | c1 :: c2 :: r =>
          if Ascii.eqb c1 " " && in_range "1" "9" c2 then [([c1; c2], r)] else []
      | _ => []
      end).

(** Group [b]: one of the month abbreviations, letter case ignored. *)
Definition re_b (s : str) : option (str * str) :=
  match s with
  | c1 :: c2 :: c3 :: r =>
      if existsb (str_eqb (map lower [c1; c2; c3])) (tl a_month)
      then Some ([c1; c2; c3], r) else None
  | _ => None
  end.

(** Group [Y]: four digits. *)
Definition re_Y (s : str) : option (str * str) :=
  match s with
  | c1 :: c2 :: c3 :: c4 :: r =>
      if forallb is_digit [c1; c2; c3; c4] then Some ([c1; c2; c3; c4], r)
      else None
  | _ => None
  end.

(** The groups of a match and the unconverted rest. *)
Record re_groups : Type :=
  mkGroups { g_d : str; g_b : str; g_Y : str; g_rest : str }.

(** [format_regex.match(data_string)]: the first alternative of [d] after
    which the rest of the pattern matches. *)
Fixpoint re_match_from (alts : list (str * str)) : option re_groups :=
  match alts with
  | [] => None
  | (d, s1) :: alts' =>
      match re_b s1 with
      | Some (b, s2) =>
          match re_Y s2 with
          | Some (Y, s3) => Some (mkGroups d b Y s3)
          | None => re_match_from alts'
          end
      | None => re_match_from alts'
      end
  end.

Definition re_match (s : str) : option re_groups := re_match_from (re_d s).

(** [int(s)] on a string of decimal digits, surrounding white space
    ignored; [None] is [ValueError]. *)
Definition digit_val (c : ascii) : Z := code c - 48.

Definition int (s : str) : option Z :=
  match strip s with
  | [] => None
  | ds => if forallb is_digit ds
          then Some (fold_left (fun acc c => acc * 10 + digit_val c) ds 0)
          else None
  end.

Definition strptime (data_string : str) : option datetime :=
  match re_match data_string with
  | None => None
  | Some found =>
      match g_rest found with
      | _ :: _ => None
      | [] =>
          match int (g_Y found), index (map lower (g_b found)) a_month,
                int (g_d found) with
          | Some y, Some m, Some d => datetime_new y m d
          | _, _, _ => None
          end
      end
  end.

End PyDatetime.


(** ** Python's [list.sort(key=...)] *)

Module PyList.

(** The sort keys of the system are pairs of integers, compared as Python
    compares tuples: by the first component where they differ. *)
Definition key : Type := (Z * Z)%type.

Definition key_ltb (a b : key) : bool :=
  (fst a <? fst b) || ((fst a =? fst b) && (snd a <? snd b)).

Definition key_eqb (a b : key) : bool :=
  (fst a =? fst b) && (snd a =? snd b).

(** [list.sort] is a stable sort that compares keys with [<] only.  On a
    total preorder the result of a stable sort is unique, so the sort is
    modelled by the simplest stable one: insertion from the right, a new
    element going in front of the first element whose key is not smaller. *)
Fixpoint insert {A : Type} (kf : A -> key) (x : A) (l : list A) : list A :=
  match l with
  | [] => [x]
  | y :: r => if key_ltb (kf y) (kf x) then y :: insert kf x r
              else x :: l
  end.

Fixpoint sort {A : Type} (kf : A -> key) (l : list A) : list A :=
  match l with
  | [] => []
  | x :: r => insert kf x (sort kf r)
  end.

End PyList.

(** ** [models.py] *)

Module Models.
Import PyStr.

Inductive CustomerType : Type := REGULAR | REWARDS.

Definition CustomerType_value (c : CustomerType) : str :=
  match c with
  | REGULAR => lit "Regular"
  | REWARDS => lit "Rewards"
  end.

(** [CustomerType(s)]: the member whose value is [s]; [None] is the
    [ValueError] of [Enum]. *)
Definition CustomerType_of_value (s : str) : option CustomerType :=
  if str_eqb s (lit "Regular") then Some REGULAR
  else if str_eqb s (lit "Rewards") then Some REWARDS
  else None.

Inductive DayType : Type := WEEKDAY | WEEKEND.

Definition DayType_value (d : DayType) : str :=
  match d with
  | WEEKDAY => lit "weekday"
  | WEEKEND => lit "weekend"
  end.

Record Hotel : Type := mkHotel {
  name : str;
  rating : Z;
  weekday_regular : Z;
  weekday_rewards : Z;
  weekend_regular : Z;
  weekend_rewards : Z
}.

Definition get_rate (self : Hotel) (customer_type : CustomerType)
  (day_type : DayType) : Z :=
  match customer_type with
  | REGULAR =>
      match day_type with
      | WEEKDAY => weekday_regular self
      | WEEKEND => weekend_regular self
      end
  | REWARDS =>
      match day_type with
      | WEEKDAY => weekday_rewards self
      | WEEKEND => weekend_rewards self
      end
  end.

End Models.

(** ** [system.py] *)

Module System.
Import PyStr PyDatetime PyList Models.

Record HotelReservationSystem : Type := mkSystem { hotels : list Hotel }.

(** [HotelReservationSystem()] *)
Definition init : HotelReservationSystem :=
  mkSystem
    [ mkHotel (lit "Lakewood") 3 110 80 90 80;
      mkHotel (lit "Bridgewood") 4 160 110 60 50;
      mkHotel (lit "Ridgewood") 5 220 100 150 40 ].

(** *** [parse_input] *)

Definition msg_no_separator : str := lit "Input must contain ':' separator".

Definition msg_invalid_customer (customer_str : str) : str :=
  lit "Invalid customer type: " ++ customer_str
  ++ lit ". Must be 'Regular' or 'Rewards'".

Definition msg_invalid_date (date_str : str) : str :=
  lit "Invalid date format: " ++ date_str
  ++ lit ". Expected format: DDMmmYYYY".

Definition msg_no_dates : str := lit "At least one date must be provided".

Definition msg_failed (input_str : str) (inner : str) : str :=
  lit "Failed to parse input '" ++ input_str ++ lit "': " ++ inner.

(** The body of the [for date_str in date_strings] loop, with the list
    [dates] it appends to. *)
Fixpoint parse_dates (date_strings : list str) (dates : list datetime)
  : result (list datetime) :=
  match date_strings with
  | [] => Ok dates
  | date_str :: rest =>
      let clean_date := strip (re_sub_parens date_str) in
      match strptime clean_date with
      | Some date_obj => parse_dates rest (dates ++ [date_obj])
      | None => Raise (ValueError (msg_invalid_date date_str))
      end
  end.

(** The body of the outer [try]. *)
Definition parse_input_body (input_str : str)
  : result (CustomerType * list datetime) :=
  let parts := map strip (split1 ":" input_str) in
  match parts with
  | [customer_str; dates_str] =>
      match CustomerType_of_value customer_str with
      | None => Raise (ValueError (msg_invalid_customer customer_str))
      | Some customer_type =>
          let date_strings := map strip (split "," dates_str) in
          dates <- parse_dates date_strings [] ;;
          match dates with
          | [] => Raise (ValueError msg_no_dates)
          | _ :: _ => Ok (customer_type, dates)
          end
      end
  | _ => Raise (ValueError msg_no_separator)
  end.

(** [except Exception as e: raise ValueError(f"Failed to parse input ...")] *)
Definition parse_input (input_str : str)
  : result (CustomerType * list datetime) :=
  match parse_input_body input_str with
  | Ok r => Ok r
  | Raise e => Raise (ValueError (msg_failed input_str (exn_str e)))
  end.

(** *** [get_day_type], [calculate_total_cost] *)

Definition get_day_type (date : datetime) : DayType :=
  if 5 <=? weekday date then WEEKEND else WEEKDAY.

(** The loop [for date in dates: total_cost += rate], from [total_cost]. *)
Definition calculate_total_cost (hotel : Hotel) (customer_type : CustomerType)
  (dates : list datetime) : Z :=
  fold_left
    (fun total_cost date =>
       let day_type := get_day_type date in
       let rate := get_rate hotel customer_type day_type in
       total_cost + rate)
    dates 0.

(** *** [find_cheapest_hotel] *)

(** The list [hotel_costs] before it is sorted. *)
Definition hotel_costs (self : HotelReservationSystem)
  (customer_type : CustomerType) (dates : list datetime) : list (Hotel * Z) :=
  map (fun hotel => (hotel, calculate_total_cost hotel customer_type dates))
      (hotels self).

(** [key=lambda x: (x[1], -x[0].rating)] *)
Definition cost_key (x : Hotel * Z) : key := (snd x, - rating (fst x)).

Definition sorted_hotel_costs (self : HotelReservationSystem)
  (customer_type : CustomerType) (dates : list datetime) : list (Hotel * Z) :=
  sort cost_key (hotel_costs self customer_type dates).

Definition find_cheapest_hotel (self : HotelReservationSystem)
  (input_str : str) : result str :=
  ' (customer_type, dates) <- parse_input input_str ;;
  match sorted_hotel_costs self customer_type dates with
  | [] => Raise IndexError
  | x :: _ => let cheapest_hotel := fst x in Ok (name cheapest_hotel)
  end.

(** *** [get_detailed_analysis] *)

(** The dictionaries of the analysis, as records. *)
Record daily_cost : Type := mkDaily {
  dc_date : str;
  dc_day_type : str;
  dc_rate : Z
}.

Record hotel_entry : Type := mkEntry {
  he_name : str;
  he_rating : Z;
  he_total_cost : Z;
  he_daily_costs : list daily_cost
}.

Record analysis : Type := mkAnalysis {
  an_customer_type : str;
  an_dates : list str;
  an_hotels : list hotel_entry;
  an_cheapest_hotel : str
}.

(** [key=lambda x: (x["total_cost"], -x["rating"])] *)
Definition entry_key (x : hotel_entry) : key :=
  (he_total_cost x, - he_rating x).

Section Analysis.

(** [date.strftime("%d%b%Y")] is left to the platform's C library. *)
Variable strftime : datetime -> str.

Definition daily_costs (hotel : Hotel) (customer_type : CustomerType)
  (dates : list datetime) : list daily_cost :=
  map (fun date =>
         let day_type := get_day_type date in
         let rate := get_rate hotel customer_type day_type in
         mkDaily (strftime date) (DayType_value day_type) rate)
      dates.

Definition analysis_hotels (self : HotelReservationSystem)
  (customer_type : CustomerType) (dates : list datetime) : list hotel_entry :=
  map (fun hotel =>
         let total_cost := calculate_total_cost hotel customer_type dates in
         mkEntry (name hotel) (rating hotel) total_cost
                 (daily_costs hotel customer_type dates))
      (hotels self).

Definition get_detailed_analysis (self : HotelReservationSystem)
  (input_str : str) : result analysis :=
  ' (customer_type, dates) <- parse_input input_str ;;
  let sorted := sort entry_key (analysis_hotels self customer_type dates) in
  match sorted with
  | [] => Raise IndexError
  | x :: _ =>
      Ok (mkAnalysis (CustomerType_value customer_type)
                     (map strftime dates) sorted (he_name x))
  end.

End Analysis.

End System.

(** ** [tests/__init__.py]: [TestConstants.HOTEL_INFO] and
    [TestUtils.calculate_expected_cost] *)

Module TestUtils.
Import PyStr PyDatetime.

(** The inner dictionaries of [HOTEL_INFO] have the same five keys each and
    are read by literal keys only: a record. *)
Record hotel_info : Type := mkInfo {
  hi_rating : Z;
  hi_weekday_regular : Z;
  hi_weekday_rewards : Z;
  hi_weekend_regular : Z;
  hi_weekend_rewards : Z
}.

(** [HOTEL_INFO], a dictionary keyed by the hotel names. *)
Definition HOTEL_INFO : list (str * hotel_info) :=
  [ (lit "Lakewood", mkInfo 3 110 80 90 80);
    (lit "Bridgewood", mkInfo 4 160 110 60 50);
    (lit "Ridgewood", mkInfo 5 220 100 150 40) ].

(** [d[key]]; [None] is [KeyError]. *)
Fixpoint dict_get {V : Type} (d : list (str * V)) (key : str) : option V :=
  match d with
  | [] => None
  | (k, v) :: r => if str_eqb k key then Some v else dict_get r key
  end.

(** How a call of [calculate_expected_cost] ends. *)
Inductive outcome : Type :=
| Returns (total_cost : Z)
| RaisesKeyError (key : str)
| RaisesValueError.

(** The loop [for date_str in dates], from [total_cost]. *)
Fixpoint expected_cost_loop (info : hotel_info) (customer_type : str)
  (dates : list str) (total_cost : Z) : outcome :=
  match dates with
  | [] => Returns total_cost
  | date_str :: rest =>
      match strptime date_str with
      | None => RaisesValueError
      | Some date_obj =>
          let is_weekend := 5 <=? weekday date_obj in
          let rate :=
            if str_eqb customer_type (lit "Regular")
            then (if is_weekend then hi_weekend_regular info
                  else hi_weekday_regular info)
            else (if is_weekend then hi_weekend_rewards info
                  else hi_weekday_rewards info) in
          expected_cost_loop info customer_type rest (total_cost + rate)
      end
  end.

Definition calculate_expected_cost (hotel_name customer_type : str)
  (dates : list str) : outcome :=
  match dict_get HOTEL_INFO hotel_name with
  | None => RaisesKeyError hotel_name
  | Some info => expected_cost_loop info customer_type dates 0
  end.

End TestUtils.

(** ** The proleptic Gregorian calendar

    The calendar as its rules define it, independently of [datetime]: the
    lengths of the months, the leap years, the day that follows a day, and
    the seven-day week that advances by one with every day, anchored at
    Monday 1 January of year 1. *)

Module Gregorian.
Import PyDatetime.

Inductive DayOfWeek : Type :=
| Monday | Tuesday | Wednesday | Thursday | Friday | Saturday | Sunday.

Definition next_dow (w : DayOfWeek) : DayOfWeek :=
  match w with
  | Monday => Tuesday
  | Tuesday => Wednesday
  | Wednesday => Thursday
  | Thursday => Friday
  | Friday => Saturday
  | Saturday => Sunday
  | Sunday => Monday
  end.

Definition leap_year (y : Z) : bool :=
  if y mod 400 =? 0 then true
  else if y mod 100 =? 0 then false
  else y mod 4 =? 0.

Definition month_length (y m : Z) : Z :=
  if m =? 2 then (if leap_year y then 29 else 28)
  else if (m =? 4) || (m =? 6) || (m =? 9) || (m =? 11) then 30
  else 31.

(** A date of the calendar, from year 1 on. *)
Definition wf_date (d : datetime) : Prop :=
  1 <= year d /\ 1 <= month d <= 12 /\ 1 <= day d <= month_length (year d) (month d).

(** A date that [datetime] can hold: years 1 to 9999. *)
Definition valid_date (d : datetime) : Prop :=
  wf_date d /\ year d <= 9999.

Definition tomorrow (d : datetime) : datetime :=
  if day d <? month_length (year d) (month d)
  then mkDate (year d) (month d) (day d + 1)
  else if month d <? 12 then mkDate (year d) (month d + 1) 1
  else mkDate (year d + 1) 1 1.

Definition yesterday (d : datetime) : datetime :=
  if 1 <? day d then mkDate (year d) (month d) (day d - 1)
  else if 1 <? month d
  then mkDate (year d) (month d - 1) (month_length (year d) (month d - 1))
  else mkDate (year d - 1) 12 31.

Definition epoch : datetime := mkDate 1 1 1.

(** [falls_on d w]: counting the days of the week from the epoch, the
    date [d] is a [w]. *)
Inductive falls_on : datetime -> DayOfWeek -> Prop :=
| falls_epoch : falls_on epoch Monday
| falls_next d w : falls_on d w -> falls_on (tomorrow d) (next_dow w).

(** The position [weekday] gives to a day of the week. *)
Definition dow_index (w : DayOfWeek) : Z :=
  match w with
  | Monday => 0
  | Tuesday => 1
  | Wednesday => 2
  | Thursday => 3
  | Friday => 4
  | Saturday => 5
  | Sunday => 6
  end.

End Gregorian.

Import PyStr PyDatetime PyList Models System Gregorian.

(** ** The vocabulary of the specification *)

(** The sum of the nightly rates, as the specification words it. *)
Definition sum_of_rates (hotel : Hotel) (customer_type : CustomerType)
  (dates : list datetime) : Z :=
  fold_right Z.add 0
    (map (fun date => get_rate hotel customer_type (get_day_type date)) dates).

(** The four kinds of request failure, with the text they carry, and the
    message by which [parse_input] signals each. *)
Inductive ErrorKind : Type :=
| MalformedRequest
| UnknownCustomerTier (customer_str : str)
| InvalidDateFormat (date_str : str)
| EmptyDateList.

Definition kind_message (k : ErrorKind) : str :=
  match k with
  | MalformedRequest => msg_no_separator
  | UnknownCustomerTier customer_str => msg_invalid_customer customer_str
  | InvalidDateFormat date_str => msg_invalid_date date_str
  | EmptyDateList => msg_no_dates
  end.

(** Parsing [input_str] fails with the kind [k]. *)
Definition fails_with (input_str : str) (k : ErrorKind) : Prop :=
  parse_input input_str
  = Raise (ValueError (msg_failed input_str (kind_message k))).

(** [sub] occurs in [s]. *)
Definition includes (s sub : str) : Prop :=
  exists before after, s = before ++ sub ++ after.

(** The date segment holds nothing but white space and commas. *)
Definition blank_dates (dates_str : str) : Prop :=
  Forall (fun c => isspace c = true \/ c = ","%char) dates_str.

(** The date token as the parser reads it: annotation removed, trimmed. *)
Definition clean_date (date_str : str) : str :=
  strip (re_sub_parens date_str).

(** [x] may stand before [y] in a list sorted by [kf]: the key of [y] is
    not smaller than the key of [x]. *)
Definition in_order {A : Type} (kf : A -> key) (x y : A) : Prop :=
  key_ltb (kf y) (kf x) = false.

(** [x] is ranked before [y]: it costs less, or as much with a rating at
    least as high. *)
Definition ranked_before (x y : Hotel * Z) : Prop :=
  snd x < snd y \/ (snd x = snd y /\ rating (fst y) <= rating (fst x)).

(** The hotels of cost [c] and rating [r]. *)
Definition same_rank (c r : Z) (x : Hotel * Z) : bool :=
  (snd x =? c) && (rating (fst x) =? r).

(** The entry of the analysis for a hotel and its cost. *)
Definition entry_of (strftime : datetime -> str) (customer_type : CustomerType)
  (dates : list datetime) (x : Hotel * Z) : hotel_entry :=
  mkEntry (name (fst x)) (rating (fst x)) (snd x)
          (daily_costs strftime (fst x) customer_type dates).

(** The character [c] occurs in [s]. *)
Definition occurs (c : ascii) (s : str) : bool := existsb (Ascii.eqb c) s.

(** Nothing but white space. *)
Definition blank (s : str) : Prop := Forall (fun c => isspace c = true) s.

(** A string that [strip] leaves alone: no white space at either end. *)
Definition trimmed (s : str) : Prop := lstrip s = s /\ lstrip (rev s) = rev s.

(** A request laid out around one token of its date list:
    [tier ":" before token after], where [before] is empty or ends with a
    comma and [after] is empty or starts with one. *)
Definition request_around (tier before token after : str) : str :=
  tier ++ ":"%char :: before ++ token ++ after.

Definition token_start (before : str) : Prop :=
  before = [] \/ exists p, before = p ++ [","%char].

Definition token_end (after : str) : Prop :=
  after = [] \/ exists q, after = ","%char :: q.

(** The text [a] between parentheses. *)
Definition annotation (a : str) : str := "("%char :: a ++ [")"%char].

(** ** The layout of a date token *)

(** A string of decimal digits, and the number it writes. *)
Definition digits (s : str) : Prop :=
  Forall (fun c => code "0" <= code c <= code "9") s.

Definition number (s : str) : Z :=
  fold_left (fun n c => 10 * n + (code c - code "0")) s 0.

(** The English month abbreviations, January first. *)
Definition month_abbreviations : list str :=
  [lit "Jan"; lit "Feb"; lit "Mar"; lit "Apr"; lit "May"; lit "Jun";
   lit "Jul"; lit "Aug"; lit "Sep"; lit "Oct"; lit "Nov"; lit "Dec"].

(** [mmm] abbreviates the month of number [m], in any letter case. *)
Definition abbreviates (mmm : str) (m : Z) : Prop :=
  1 <= m <= 12
  /\ map lower mmm = map lower (nth (Z.to_nat (m - 1)) month_abbreviations []).

(** [s] writes the date [d] with a day of [width] digits: the digits of the
    day of the month, the three letters of the month, the four digits of
    the year and nothing else, [d] being a date that [datetime] can hold. *)
Definition written (width : nat) (s : str) (d : datetime) : Prop :=
  exists dd mmm yyyy,
    s = dd ++ mmm ++ yyyy
    /\ List.length dd = width /\ digits dd /\ number dd = day d
    /\ List.length mmm = 3%nat /\ abbreviates mmm (month d)
    /\ List.length yyyy = 4%nat /\ digits yyyy /\ number yyyy = year d
    /\ valid_date d.

(** The layout the specification words: a two-digit day, a three-letter
    month, a four-digit year. *)
Definition two_digit_day_layout (s : str) : Prop := exists d, written 2 s d.

(** The same layout with a day of one or two digits. *)
Definition date_layout (s : str) : Prop :=
  exists d, written 1 s d \/ written 2 s d.

(** ** Vocabulary for the further properties *)

Definition DayType_eqb (a b : DayType) : bool :=
  match a, b with
  | WEEKDAY, WEEKDAY | WEEKEND, WEEKEND => true
  | _, _ => false
  end.

(** How many of the dates have the day type [day_type]. *)
Definition count_day_type (day_type : DayType) (dates : list datetime) : Z :=
  Z.of_nat
    (List.length (filter (fun d => DayType_eqb (get_day_type d) day_type) dates)).

(** [n] consecutive days of the calendar, from [d] on. *)
Fixpoint days_from (d : datetime) (n : nat) : list datetime :=
  match n with
  | O => []
  | S n' => d :: days_from (tomorrow d) n'
  end.

(** The cost of a stay at a hotel, as the sort key sees it. *)
Definition stay_key (customer_type : CustomerType) (dates : list datetime)
  (hotel : Hotel) : key :=
  (calculate_total_cost hotel customer_type dates, - rating hotel).

(** * Properties *)

(** ** The library functions on small inputs *)

Example split_empty_string : split "," (lit "") = [lit ""].
Proof. reflexivity. Qed.

Example split_keeps_empty_tokens :
  split "," (lit "a,,b,") = [lit "a"; lit ""; lit "b"; lit ""].
Proof. reflexivity. Qed.

Example split1_first_separator_only :
  split1 ":" (lit "a:b:c") = [lit "a"; lit "b:c"]
  /\ split1 ":" (lit "abc") = [lit "abc"].
Proof. split; reflexivity. Qed.

Example re_sub_every_closed_group :
  re_sub_parens (lit "a(b)c(d)e(f") = lit "ace(f".
Proof. reflexivity. Qed.

Example strptime_reference_date :
  strptime (lit "16Mar2009") = Some (mkDate 2009 3 16)
  /\ weekday (mkDate 2009 3 16) = 0.
Proof. split; reflexivity. Qed.

Example strptime_is_lax :
  strptime (lit "1mAR2009") = Some (mkDate 2009 3 1)
  /\ strptime (lit "31Feb2009") = None
  /\ strptime (lit "16Mar2009 ") = None
  /\ strptime (lit "") = None.
Proof. repeat split; reflexivity. Qed.

(** ** Cost calculation *)

Lemma fold_left_add_acc (f : datetime -> Z) (l : list datetime) (a : Z) :
  fold_left (fun acc x => acc + f x) l a = a + fold_right (fun x s => f x + s) 0 l.
Proof.
  revert a; induction l as [| x l IH]; intros a; simpl.
  - lia.
  - rewrite IH. lia.
Qed.

Lemma calculate_total_cost_sum hotel customer_type dates :
  calculate_total_cost hotel customer_type dates
  = sum_of_rates hotel customer_type dates.
Proof.
  unfold calculate_total_cost, sum_of_rates.
  rewrite (fold_left_add_acc
             (fun date => get_rate hotel customer_type (get_day_type date))).
  induction dates as [| d ds IH]; simpl in *; lia.
Qed.

Lemma calculate_total_cost_cons hotel customer_type d dates :
  calculate_total_cost hotel customer_type (d :: dates)
  = get_rate hotel customer_type (get_day_type d)
    + calculate_total_cost hotel customer_type dates.
Proof.
  rewrite !calculate_total_cost_sum. reflexivity.
Qed.

(** C5.  For every hotel, customer type and list of dates, empty or not,
    [calculate_total_cost] is the sum over the dates of the rate the hotel
    stores for the customer type and the day type of the date: the field
    [weekday_regular], [weekend_regular], [weekday_rewards] or
    [weekend_rewards] of the hotel.  The rates of the breakdown are these
    rates, date by date; on the empty list the total is 0 and the breakdown
    is empty. *)
Theorem calculate_total_cost_is_sum_of_rates :
  forall (strftime : datetime -> str) hotel customer_type dates,
    calculate_total_cost hotel customer_type dates
    = fold_right Z.add 0
        (map (fun date =>
                match customer_type, get_day_type date with
                | REGULAR, WEEKDAY => weekday_regular hotel
                | REGULAR, WEEKEND => weekend_regular hotel
                | REWARDS, WEEKDAY => weekday_rewards hotel
                | REWARDS, WEEKEND => weekend_rewards hotel
                end) dates)
    /\ map dc_rate (daily_costs strftime hotel customer_type dates)
       = map (fun date =>
                match customer_type, get_day_type date with
                | REGULAR, WEEKDAY => weekday_regular hotel
                | REGULAR, WEEKEND => weekend_regular hotel
                | REWARDS, WEEKDAY => weekday_rewards hotel
                | REWARDS, WEEKEND => weekend_rewards hotel
                end) dates
    /\ calculate_total_cost hotel customer_type [] = 0
    /\ daily_costs strftime hotel customer_type [] = [].
Proof.
  intros strftime hotel customer_type dates.
  split; [|split; [|split; reflexivity]].
  - unfold calculate_total_cost.
    rewrite (fold_left_add_acc
               (fun date => get_rate hotel customer_type (get_day_type date))).
    induction dates as [| d ds IH]; [reflexivity|].
    cbn [fold_right map]. rewrite <- IH.
    unfold get_rate. destruct customer_type, (get_day_type d); lia.
  - unfold daily_costs. rewrite map_map. apply map_ext. intros d.
    cbn [dc_rate]. unfold get_rate.
    destruct customer_type, (get_day_type d); reflexivity.
Qed.

(** C7.  When every date of the list is a weekday, the total cost is the
    number of dates times the weekday rate the hotel stores for the customer
    type ([weekday_regular] or [weekday_rewards]); when every date is a
    weekend day, it is the number of dates times the stored weekend rate
    ([weekend_regular] or [weekend_rewards]). *)
Theorem calculate_total_cost_uniform :
  forall hotel customer_type day_type dates,
    Forall (fun date => get_day_type date = day_type) dates ->
    calculate_total_cost hotel customer_type dates
    = Z.of_nat (List.length dates)
      * match day_type, customer_type with
        | WEEKDAY, REGULAR => weekday_regular hotel
        | WEEKDAY, REWARDS => weekday_rewards hotel
        | WEEKEND, REGULAR => weekend_regular hotel
        | WEEKEND, REWARDS => weekend_rewards hotel
        end.
Proof.
  intros hotel customer_type day_type dates H.
  induction H as [| d ds Hd _ IH].
  - reflexivity.
  - rewrite calculate_total_cost_cons, IH, Hd.
    change (List.length (d :: ds)) with (S (List.length ds)).
    unfold get_rate. destruct customer_type, day_type; lia.
Qed.

Lemma calculate_total_cost_uniform_witness :
  (Forall (fun date => get_day_type date = WEEKDAY)
          [mkDate 2009 3 16; mkDate 2009 3 17]
   /\ calculate_total_cost (mkHotel (lit "Bridgewood") 4 160 110 60 50) REWARDS
        [mkDate 2009 3 16; mkDate 2009 3 17]
      = 2 * 110)
  /\ (Forall (fun date => get_day_type date = WEEKEND)
             [mkDate 2009 3 21; mkDate 2009 3 22]
      /\ calculate_total_cost (mkHotel (lit "Bridgewood") 4 160 110 60 50) REGULAR
           [mkDate 2009 3 21; mkDate 2009 3 22]
         = 2 * 60).
Proof.
  assert (H1 : Forall (fun date => get_day_type date = WEEKDAY)
                      [mkDate 2009 3 16; mkDate 2009 3 17])
    by (repeat constructor).
  assert (H2 : Forall (fun date => get_day_type date = WEEKEND)
                      [mkDate 2009 3 21; mkDate 2009 3 22])
    by (repeat constructor).
  split; (split; [assumption|]).
  - exact (calculate_total_cost_uniform
             (mkHotel (lit "Bridgewood") 4 160 110 60 50) REWARDS WEEKDAY _ H1).
  - exact (calculate_total_cost_uniform
             (mkHotel (lit "Bridgewood") 4 160 110 60 50) REGULAR WEEKEND _ H2).
Defined.

(** ** The reference scenarios *)

(** C3.  With the catalog of the constructor, the four reference requests
    select Lakewood, Bridgewood, Ridgewood and Ridgewood. *)
Theorem find_cheapest_hotel_scenarios :
  map name (hotels init) = [lit "Lakewood"; lit "Bridgewood"; lit "Ridgewood"]
  /\ map rating (hotels init) = [3; 4; 5]
  /\ find_cheapest_hotel init
       (lit "Regular: 16Mar2009(mon), 17Mar2009(tues), 18Mar2009(wed)")
     = Ok (lit "Lakewood")
  /\ find_cheapest_hotel init
       (lit "Regular: 20Mar2009(fri), 21Mar2009(sat), 22Mar2009(sun)")
     = Ok (lit "Bridgewood")
  /\ find_cheapest_hotel init
       (lit "Rewards: 26Mar2009(thur), 27Mar2009(fri), 28Mar2009(sat)")
     = Ok (lit "Ridgewood")
  /\ find_cheapest_hotel init (lit "Rewards: 21Mar2009(sat)")
     = Ok (lit "Ridgewood").
Proof.
  repeat split; vm_compute; reflexivity.
Qed.

(** ** Parsing: white space and splitting *)

Lemma lstrip_all_space (s : str) :
  Forall (fun c => isspace c = true) s -> lstrip s = [].
Proof.
  induction 1 as [| c r Hc _ IH]; simpl; [reflexivity|].
  rewrite Hc. exact IH.
Qed.

Lemma strip_all_space (s : str) :
  Forall (fun c => isspace c = true) s -> strip s = [].
Proof.
  intros H. unfold strip, rstrip.
  rewrite (lstrip_all_space (rev s)).
  - reflexivity.
  - apply Forall_rev. exact H.
Qed.

Lemma split_nonempty (sep : ascii) (s : str) : split sep s <> [].
Proof.
  destruct s as [| c r]; simpl; [discriminate|].
  destruct (Ascii.eqb c sep); [discriminate|].
  destruct (split sep r); discriminate.
Qed.

Lemma split_blank_head (s : str) :
  blank_dates s ->
  exists t ts, split "," s = t :: ts /\ Forall (fun c => isspace c = true) t.
Proof.
  induction 1 as [| c r Hc _ IH]; simpl.
  - exists [], []. split; [reflexivity | constructor].
  - destruct IH as [t [ts [E Ht]]].
    destruct (Ascii.eqb_spec c ",") as [-> | Hne].
    + exists [], (split "," r). split; [reflexivity | constructor].
    + rewrite E. exists (c :: t), ts. split; [reflexivity|].
      constructor; [|exact Ht]. destruct Hc as [Hc | Hc]; [exact Hc | contradiction].
Qed.

(** ** Parsing: the loop over the date tokens *)

Lemma parse_dates_fails pre date_str post dates :
  Forall (fun t => strptime (clean_date t) <> None) pre ->
  strptime (clean_date date_str) = None ->
  parse_dates (pre ++ date_str :: post) dates
  = Raise (ValueError (msg_invalid_date date_str)).
Proof.
  intros Hpre Hbad. revert dates.
  induction Hpre as [| t pre Ht _ IH]; intros dates; simpl.
  - unfold clean_date in Hbad. rewrite Hbad. reflexivity.
  - unfold clean_date in Ht.
    destruct (strptime (strip (re_sub_parens t))) as [d|]; [apply IH | congruence].
Qed.

Lemma parse_dates_ok date_strings dates r :
  parse_dates date_strings dates = Ok r ->
  exists ds, r = dates ++ ds /\ List.length ds = List.length date_strings
             /\ Forall2 (fun t d => strptime (clean_date t) = Some d) date_strings ds.
Proof.
  revert dates; induction date_strings as [| t ts IH]; intros dates H; simpl in H.
  - injection H as <-. exists []. rewrite app_nil_r. repeat split. constructor.
  - destruct (strptime (strip (re_sub_parens t))) as [d|] eqn:E; [|discriminate].
    apply IH in H. destruct H as [ds [-> [Hl Hf]]].
    exists (d :: ds). rewrite <- app_assoc. simpl. repeat split.
    + now rewrite Hl.
    + constructor; assumption.
Qed.

Lemma Exists_first_failure (date_strings : list str) :
  Exists (fun t => strptime (clean_date t) = None) date_strings ->
  exists pre date_str post,
    date_strings = pre ++ date_str :: post
    /\ Forall (fun t => strptime (clean_date t) <> None) pre
    /\ strptime (clean_date date_str) = None.
Proof.
  induction date_strings as [| t ts IH]; intros H.
  - inversion H.
  - destruct (strptime (clean_date t)) as [d|] eqn:E.
    + inversion H as [? ? H0 | ? ? H0]; subst; [congruence|].
      destruct (IH H0) as [pre [ds [post [-> [Hp Hb]]]]].
      exists (t :: pre), ds, post. repeat split; try assumption.
      constructor; [congruence | assumption].
    + exists [], t, ts. repeat split; [constructor | assumption].
Qed.

Lemma parse_input_body_dates input_str customer_str dates_str customer_type :
  map strip (split1 ":" input_str) = [customer_str; dates_str] ->
  CustomerType_of_value customer_str = Some customer_type ->
  parse_input_body input_str
  = (dates <- parse_dates (map strip (split "," dates_str)) [] ;;
     match dates with
     | [] => Raise (ValueError msg_no_dates)
     | _ :: _ => Ok (customer_type, dates)
     end).
Proof.
  intros Hparts Hct. unfold parse_input_body. rewrite Hparts, Hct. reflexivity.
Qed.

(** C2 (what the code does).  When the separator is present, the customer
    type is known and the date segment holds only white space and commas,
    the first token is empty once trimmed, the loop fails on it, and parsing
    fails with the kind [InvalidDateFormat] of the empty token, not with
    [EmptyDateList]. *)
Theorem parse_input_blank_dates :
  forall input_str customer_str dates_str customer_type,
    map strip (split1 ":" input_str) = [customer_str; dates_str] ->
    CustomerType_of_value customer_str = Some customer_type ->
    blank_dates dates_str ->
    fails_with input_str (InvalidDateFormat [])
    /\ ~ fails_with input_str EmptyDateList.
Proof.
  intros input_str customer_str dates_str customer_type Hparts Hct Hblank.
  assert (Hf : fails_with input_str (InvalidDateFormat [])).
  { unfold fails_with, parse_input.
    rewrite (parse_input_body_dates _ _ _ _ Hparts Hct).
    destruct (split_blank_head _ Hblank) as [t [ts [E Ht]]].
    rewrite E. simpl map. rewrite (strip_all_space t Ht).
    reflexivity. }
  split; [exact Hf|].
  unfold fails_with in *. rewrite Hf. intros H.
  injection H as H. apply app_inv_head in H.
  vm_compute in H. discriminate H.
Qed.

Lemma parse_input_blank_dates_witness :
  blank_dates [] /\
  (fails_with (lit "Regular: ") (InvalidDateFormat [])
   /\ ~ fails_with (lit "Regular: ") EmptyDateList).
Proof.
  split; [constructor|].
  apply (parse_input_blank_dates (lit "Regular: ") (lit "Regular") [] REGULAR).
  - reflexivity.
  - reflexivity.
  - constructor.
Defined.

(** The guard [if not dates] never fires: no input at all makes the body of
    [parse_input] raise its "at least one date" error. *)
Lemma parse_input_body_never_no_dates (input_str : str) :
  parse_input_body input_str <> Raise (ValueError msg_no_dates).
Proof.
  unfold parse_input_body.
  destruct (map strip (split1 ":" input_str)) as [| c [| d [| x p]]];
    try discriminate.
  destruct (CustomerType_of_value c); [|discriminate].
  destruct (parse_dates (map strip (split "," d)) []) as [ds | e] eqn:E; simpl.
  - destruct ds as [| d0 ds]; [|discriminate].
    apply parse_dates_ok in E. destruct E as [ds' [E1 [E2 _]]].
    symmetry in E1. apply app_eq_nil in E1. destruct E1 as [_ ->].
    rewrite length_map in E2. simpl in E2.
    destruct (split "," d) eqn:Es; [|discriminate].
    now apply split_nonempty in Es.
  - intros H. injection H as ->.
    remember (map strip (split "," d)) as toks eqn:Et. clear Et.
    remember (@nil datetime) as acc eqn:Ea. clear Ea.
    revert acc E. induction toks as [| t ts IH]; intros acc E; simpl in E.
    + discriminate.
    + destruct (strptime (strip (re_sub_parens t))); [eauto | discriminate].
Qed.

(** ** The stable sort *)

Section Sort.

Context {A : Type}.
Variable kf : A -> key.

Lemma key_ltb_true (a b : key) :
  key_ltb a b = true <-> fst a < fst b \/ (fst a = fst b /\ snd a < snd b).
Proof. unfold key_ltb. lia. Qed.

Lemma key_ltb_false (a b : key) :
  key_ltb a b = false <-> fst b < fst a \/ (fst a = fst b /\ snd b <= snd a).
Proof. unfold key_ltb. lia. Qed.

Lemma key_eqb_true (a b : key) : key_eqb a b = true <-> a = b.
Proof.
  unfold key_eqb. destruct a as [a1 a2], b as [b1 b2]; simpl.
  split; [intros H; f_equal; lia | intros H; injection H; lia].
Qed.

Lemma in_order_trans (x y z : A) : in_order kf x y -> in_order kf y z -> in_order kf x z.
Proof. unfold in_order. rewrite !key_ltb_false. lia. Qed.

Lemma insert_perm (x : A) (l : list A) : Permutation (insert kf x l) (x :: l).
Proof.
  induction l as [| y r IH]; simpl; [reflexivity|].
  destruct (key_ltb (kf y) (kf x)); [|reflexivity].
  rewrite IH. apply perm_swap.
Qed.

Lemma sort_perm (l : list A) : Permutation (sort kf l) l.
Proof.
  induction l as [| x r IH]; simpl; [reflexivity|].
  rewrite insert_perm. now apply perm_skip.
Qed.

Lemma insert_sorted (x : A) (l : list A) :
  StronglySorted (in_order kf) l -> StronglySorted (in_order kf) (insert kf x l).
Proof.
  induction 1 as [| y r Hs IH Hall]; simpl.
  - repeat constructor.
  - destruct (key_ltb (kf y) (kf x)) eqn:E.
    + constructor; [exact IH|].
      apply (Permutation_Forall (x := x :: r)); [symmetry; apply insert_perm|].
      constructor; [|exact Hall].
      unfold in_order. apply key_ltb_true in E. apply key_ltb_false. lia.
    + constructor; [constructor; assumption|].
      constructor; [exact E|].
      eapply Forall_impl; [|exact Hall].
      intros z Hz. now apply (in_order_trans x y z).
Qed.

Lemma sort_sorted (l : list A) : StronglySorted (in_order kf) (sort kf l).
Proof.
  induction l as [| x r IH]; simpl; [constructor | now apply insert_sorted].
Qed.

(** Stability: the elements of one key keep the order they had. *)
Lemma insert_filter_key (k : key) (x : A) (l : list A) :
  filter (fun y => key_eqb (kf y) k) (insert kf x l)
  = filter (fun y => key_eqb (kf y) k) (x :: l).
Proof.
  induction l as [| y r IH]; [reflexivity|].
  simpl insert. destruct (key_ltb (kf y) (kf x)) eqn:E; [|reflexivity].
  change (filter (fun y => key_eqb (kf y) k) (y :: insert kf x r))
    with (if key_eqb (kf y) k then y :: filter (fun y => key_eqb (kf y) k) (insert kf x r)
          else filter (fun y => key_eqb (kf y) k) (insert kf x r)).
  rewrite IH. simpl.
  destruct (key_eqb (kf x) k) eqn:Ex, (key_eqb (kf y) k) eqn:Ey; try reflexivity.
  apply key_eqb_true in Ex, Ey. rewrite Ex, Ey in E.
  apply key_ltb_true in E. lia.
Qed.

Lemma sort_stable (k : key) (l : list A) :
  filter (fun y => key_eqb (kf y) k) (sort kf l)
  = filter (fun y => key_eqb (kf y) k) l.
Proof.
  induction l as [| x r IH]; [reflexivity|].
  simpl sort. rewrite insert_filter_key. simpl. now rewrite IH.
Qed.

Lemma sort_nil_iff (l : list A) : sort kf l = [] <-> l = [].
Proof.
  split; [|intros ->; reflexivity].
  intros H. apply Permutation_nil. rewrite <- H. apply sort_perm.
Qed.

Lemma sort_head_in (x : A) (l r : list A) : sort kf l = x :: r -> In x l.
Proof.
  intros H. apply (Permutation_in x (sort_perm l)). rewrite H. now left.
Qed.

End Sort.

(** Sorting commutes with a map that preserves the keys. *)
Lemma insert_map {A B : Type} (kA : A -> key) (kB : B -> key) (f : A -> B) :
  (forall x, kB (f x) = kA x) ->
  forall x l, insert kB (f x) (map f l) = map f (insert kA x l).
Proof.
  intros Hk x l. induction l as [| y r IH]; [reflexivity|].
  simpl. rewrite !Hk. destruct (key_ltb (kA y) (kA x)); [|reflexivity].
  simpl. now rewrite IH.
Qed.

Lemma sort_map {A B : Type} (kA : A -> key) (kB : B -> key) (f : A -> B) :
  (forall x, kB (f x) = kA x) ->
  forall l, sort kB (map f l) = map f (sort kA l).
Proof.
  intros Hk l. induction l as [| x r IH]; [reflexivity|].
  simpl. rewrite IH. now apply insert_map.
Qed.

(** ** Selection *)

Lemma find_cheapest_hotel_parsed self input_str customer_type dates :
  parse_input input_str = Ok (customer_type, dates) ->
  find_cheapest_hotel self input_str
  = match sorted_hotel_costs self customer_type dates with
    | [] => Raise IndexError
    | x :: _ => Ok (name (fst x))
    end.
Proof.
  intros H. unfold find_cheapest_hotel. rewrite H. reflexivity.
Qed.

Lemma StronglySorted_weaken {A : Type} (R S : A -> A -> Prop) (l : list A) :
  (forall x y, R x y -> S x y) -> StronglySorted R l -> StronglySorted S l.
Proof.
  intros HRS. induction 1 as [| x r _ IH Hall]; constructor; [exact IH|].
  eapply Forall_impl; [|exact Hall]. intros y. apply HRS.
Qed.

Lemma in_order_ranked (x y : Hotel * Z) :
  in_order cost_key x y <-> ranked_before x y.
Proof.
  unfold in_order, ranked_before, cost_key. rewrite key_ltb_false. simpl. lia.
Qed.

Lemma same_rank_key (c r : Z) (x : Hotel * Z) :
  same_rank c r x = key_eqb (cost_key x) (c, - r).
Proof.
  unfold same_rank, key_eqb, cost_key. simpl.
  destruct (snd x =? c); [|reflexivity]. simpl.
  destruct (Z.eqb_spec (rating (fst x)) r), (Z.eqb_spec (- rating (fst x)) (- r));
    try reflexivity; lia.
Qed.

Lemma analysis_hotels_entries strftime self customer_type dates :
  analysis_hotels strftime self customer_type dates
  = map (entry_of strftime customer_type dates)
        (hotel_costs self customer_type dates).
Proof.
  unfold analysis_hotels, hotel_costs. rewrite map_map. reflexivity.
Qed.

Lemma analysis_hotels_sorted strftime self customer_type dates :
  sort entry_key (analysis_hotels strftime self customer_type dates)
  = map (entry_of strftime customer_type dates)
        (sorted_hotel_costs self customer_type dates).
Proof.
  rewrite analysis_hotels_entries. unfold sorted_hotel_costs.
  apply sort_map. intros x. reflexivity.
Qed.

(** C1.  For every customer type and list of dates, the sorted list of
    [find_cheapest_hotel] holds the catalog's hotels with their total costs,
    ordered by cost ascending and, at equal cost, by rating descending;
    hotels of equal cost and rating keep the order of the catalog; the
    function returns the name of the first hotel of that list; and the
    hotels of [get_detailed_analysis] come in the same order. *)
Theorem find_cheapest_hotel_order :
  forall self customer_type dates,
    let costs := hotel_costs self customer_type dates in
    let ordered := sorted_hotel_costs self customer_type dates in
    map fst costs = hotels self
    /\ Forall (fun x => snd x = calculate_total_cost (fst x) customer_type dates)
              costs
    /\ Permutation ordered costs
    /\ StronglySorted ranked_before ordered
    /\ (forall c r, filter (same_rank c r) ordered = filter (same_rank c r) costs)
    /\ (forall input_str,
          parse_input input_str = Ok (customer_type, dates) ->
          find_cheapest_hotel self input_str
          = match ordered with
            | [] => Raise IndexError
            | x :: _ => Ok (name (fst x))
            end)
    /\ (forall strftime input_str result,
          parse_input input_str = Ok (customer_type, dates) ->
          get_detailed_analysis strftime self input_str = Ok result ->
          an_hotels result = map (entry_of strftime customer_type dates) ordered).
Proof.
  intros self customer_type dates costs ordered.
  assert (Han : forall strftime input_str result,
             parse_input input_str = Ok (customer_type, dates) ->
             get_detailed_analysis strftime self input_str = Ok result ->
             an_hotels result
             = map (entry_of strftime customer_type dates) ordered).
  { intros strftime input_str result Hp Ha.
    unfold get_detailed_analysis in Ha. rewrite Hp in Ha. simpl in Ha.
    rewrite analysis_hotels_sorted in Ha. fold ordered in Ha.
    destruct ordered as [| x r]; [discriminate|].
    simpl in Ha. injection Ha as <-. reflexivity. }
  split; [|split; [|split; [|split; [|split; [|split; [|exact Han]]]]]];
    clear Han; subst costs ordered; unfold sorted_hotel_costs.
  - unfold hotel_costs. rewrite map_map. simpl. apply map_id.
  - unfold hotel_costs. apply Forall_forall. intros x Hx.
    apply in_map_iff in Hx. destruct Hx as [h [<- _]]. reflexivity.
  - apply sort_perm.
  - eapply StronglySorted_weaken; [|apply sort_sorted].
    intros x y. apply in_order_ranked.
  - intros c r.
    rewrite (filter_ext _ _ (same_rank_key c r)).
    rewrite (filter_ext _ _ (same_rank_key c r) (hotel_costs _ _ _)).
    apply sort_stable.
  - intros input_str H. now apply find_cheapest_hotel_parsed.
Qed.

Lemma find_cheapest_hotel_order_witness :
  parse_input (lit "Rewards: 26Mar2009(thur), 27Mar2009(fri), 28Mar2009(sat)")
  = Ok (REWARDS, [mkDate 2009 3 26; mkDate 2009 3 27; mkDate 2009 3 28])
  /\ find_cheapest_hotel init
       (lit "Rewards: 26Mar2009(thur), 27Mar2009(fri), 28Mar2009(sat)")
     = Ok (lit "Ridgewood").
Proof.
  assert (H : parse_input
                (lit "Rewards: 26Mar2009(thur), 27Mar2009(fri), 28Mar2009(sat)")
              = Ok (REWARDS, [mkDate 2009 3 26; mkDate 2009 3 27; mkDate 2009 3 28]))
    by (vm_compute; reflexivity).
  split; [exact H|].
  destruct (find_cheapest_hotel_order init REWARDS
              [mkDate 2009 3 26; mkDate 2009 3 27; mkDate 2009 3 28])
    as [_ [_ [_ [_ [_ [Hsel _]]]]]].
  rewrite (Hsel _ H). vm_compute. reflexivity.
Defined.

(** C4.  Once parsing has succeeded, evaluation over a non-empty catalog
    cannot fail: every rate looked up is one of the hotel's four stored
    rates, the sorted list has a first element, and the name returned is the
    name of a hotel of the catalog. *)
Theorem find_cheapest_hotel_never_fails :
  forall self input_str customer_type dates,
    hotels self <> [] ->
    parse_input input_str = Ok (customer_type, dates) ->
    (forall hotel day_type,
        In (get_rate hotel customer_type day_type)
           [weekday_regular hotel; weekday_rewards hotel;
            weekend_regular hotel; weekend_rewards hotel])
    /\ exists hotel,
         In hotel (hotels self)
         /\ find_cheapest_hotel self input_str = Ok (name hotel).
Proof.
  intros self input_str customer_type dates Hne Hp. split.
  - intros hotel day_type. destruct customer_type, day_type; simpl; auto.
  - rewrite (find_cheapest_hotel_parsed _ _ _ _ Hp). unfold sorted_hotel_costs.
    destruct (sort cost_key (hotel_costs self customer_type dates))
      as [| x r] eqn:E.
    + apply sort_nil_iff in E. unfold hotel_costs in E.
      apply map_eq_nil in E. contradiction.
    + apply sort_head_in in E. unfold hotel_costs in E.
      apply in_map_iff in E. destruct E as [h [<- Hin]].
      exists h. split; [exact Hin | reflexivity].
Qed.

Lemma find_cheapest_hotel_never_fails_witness :
  hotels init <> []
  /\ parse_input (lit "Regular: 16Mar2009") = Ok (REGULAR, [mkDate 2009 3 16])
  /\ exists hotel,
       In hotel (hotels init)
       /\ find_cheapest_hotel init (lit "Regular: 16Mar2009") = Ok (name hotel).
Proof.
  assert (Hne : hotels init <> []) by discriminate.
  assert (Hp : parse_input (lit "Regular: 16Mar2009")
               = Ok (REGULAR, [mkDate 2009 3 16])) by (vm_compute; reflexivity).
  split; [exact Hne|]. split; [exact Hp|].
  exact (proj2 (find_cheapest_hotel_never_fails init _ _ _ Hne Hp)).
Defined.

(** ** The detailed analysis *)

(** C10.  Whenever [find_cheapest_hotel] and [get_detailed_analysis] both
    return on an input, the ["cheapest_hotel"] of the analysis is the name
    [find_cheapest_hotel] returns. *)
Theorem analysis_agrees_with_find_cheapest_hotel :
  forall strftime self input_str cheapest result,
    find_cheapest_hotel self input_str = Ok cheapest ->
    get_detailed_analysis strftime self input_str = Ok result ->
    an_cheapest_hotel result = cheapest.
Proof.
  intros strftime self input_str cheapest result Hf Ha.
  unfold get_detailed_analysis in Ha.
  destruct (parse_input input_str) as [[customer_type dates] | e] eqn:Hp;
    [|discriminate].
  rewrite (find_cheapest_hotel_parsed _ _ _ _ Hp) in Hf.
  simpl in Ha. rewrite analysis_hotels_sorted in Ha.
  destruct (sorted_hotel_costs self customer_type dates) as [| x r];
    [discriminate|].
  simpl in Ha. injection Hf as <-. injection Ha as <-. reflexivity.
Qed.

Lemma analysis_agrees_with_find_cheapest_hotel_witness :
  exists result,
    find_cheapest_hotel init (lit "Rewards: 21Mar2009(sat)") = Ok (lit "Ridgewood")
    /\ get_detailed_analysis (fun _ => []) init (lit "Rewards: 21Mar2009(sat)")
       = Ok result
    /\ an_cheapest_hotel result = lit "Ridgewood".
Proof.
  assert (Hf : find_cheapest_hotel init (lit "Rewards: 21Mar2009(sat)")
               = Ok (lit "Ridgewood")) by (vm_compute; reflexivity).
  destruct (get_detailed_analysis (fun _ => []) init
              (lit "Rewards: 21Mar2009(sat)")) as [result | e] eqn:Ha.
  - exists result. split; [exact Hf|]. split; [reflexivity|].
    exact (analysis_agrees_with_find_cheapest_hotel _ _ _ _ _ Hf Ha).
  - vm_compute in Ha. discriminate Ha.
Defined.

(** ** The day type and the Gregorian week *)

Lemma leap_year_is_leap (y : Z) : leap_year y = _is_leap y.
Proof.
  unfold leap_year, _is_leap.
  destruct (Z.eqb_spec (y mod 400) 0) as [H400 | H400];
    destruct (Z.eqb_spec (y mod 100) 0) as [H100 | H100];
    destruct (Z.eqb_spec (y mod 4) 0) as [H4 | H4];
    simpl; try reflexivity; exfalso;
    revert H400 H100 H4; Z.div_mod_to_equations; lia.
Qed.

Ltac month_cases m :=
  let C := fresh "C" in
  assert (C : m = 1 \/ m = 2 \/ m = 3 \/ m = 4 \/ m = 5 \/ m = 6 \/ m = 7
              \/ m = 8 \/ m = 9 \/ m = 10 \/ m = 11 \/ m = 12) by lia;
  repeat (destruct C as [C | C]; [subst m|]); [..|subst m].

Lemma month_length_days_in_month (y m : Z) :
  1 <= m <= 12 -> month_length y m = _days_in_month y m.
Proof.
  intros H. unfold month_length, _days_in_month.
  rewrite leap_year_is_leap.
  month_cases m; simpl; reflexivity.
Qed.

Lemma month_length_bounds (y m : Z) : 28 <= month_length y m <= 31.
Proof.
  unfold month_length.
  destruct (m =? 2); [destruct (leap_year y); lia|].
  destruct ((m =? 4) || (m =? 6) || (m =? 9) || (m =? 11)); lia.
Qed.

Lemma days_before_month_succ (y m : Z) :
  1 <= m < 12 ->
  _days_before_month y (m + 1) = _days_before_month y m + month_length y m.
Proof.
  intros H. unfold _days_before_month, month_length.
  rewrite leap_year_is_leap.
  month_cases m; try lia; simpl; destruct (_is_leap y); reflexivity.
Qed.

Lemma days_before_year_succ (y : Z) :
  _days_before_year (y + 1)
  = _days_before_year y + 365 + (if leap_year y then 1 else 0).
Proof.
  unfold _days_before_year, leap_year. cbv zeta.
  replace (y + 1 - 1) with y by lia.
  destruct (Z.eqb_spec (y mod 400) 0) as [H400 | H400];
    [|destruct (Z.eqb_spec (y mod 100) 0) as [H100 | H100];
      [|destruct (Z.eqb_spec (y mod 4) 0) as [H4 | H4]]];
    Z.div_mod_to_equations; lia.
Qed.

Lemma days_before_december (y : Z) :
  _days_before_month y 12 + 31 = 365 + (if leap_year y then 1 else 0).
Proof.
  unfold _days_before_month. rewrite leap_year_is_leap. simpl.
  destruct (_is_leap y); reflexivity.
Qed.

Lemma toordinal_tomorrow (d : datetime) :
  wf_date d -> toordinal (tomorrow d) = toordinal d + 1.
Proof.
  destruct d as [y m dd]. unfold wf_date, tomorrow, toordinal, _ymd2ord. simpl.
  intros [Hy [Hm Hd]].
  destruct (Z.ltb_spec dd (month_length y m)) as [Hlt | Hge]; simpl; [lia|].
  assert (dd = month_length y m) by lia. subst dd.
  destruct (Z.ltb_spec m 12) as [Hm12 | Hm12]; simpl.
  - rewrite days_before_month_succ by lia. lia.
  - assert (m = 12) by lia. subst m.
    rewrite days_before_year_succ.
    pose proof (days_before_december y) as Hdec.
    change (_days_before_month (y + 1) 1) with 0.
    change (month_length y 12) with 31. lia.
Qed.

Lemma wf_tomorrow (d : datetime) : wf_date d -> wf_date (tomorrow d).
Proof.
  destruct d as [y m dd]. unfold wf_date, tomorrow. simpl.
  intros [Hy [Hm Hd]].
  destruct (Z.ltb_spec dd (month_length y m)); simpl; [lia|].
  destruct (Z.ltb_spec m 12); simpl.
  - pose proof (month_length_bounds y (m + 1)). lia.
  - pose proof (month_length_bounds (y + 1) 1). lia.
Qed.

Lemma wf_yesterday (d : datetime) :
  wf_date d -> d <> epoch -> wf_date (yesterday d).
Proof.
  destruct d as [y m dd]. unfold wf_date, yesterday, epoch. simpl.
  intros [Hy [Hm Hd]] Hne.
  destruct (Z.ltb_spec 1 dd); simpl; [lia|].
  destruct (Z.ltb_spec 1 m); simpl.
  - pose proof (month_length_bounds y (m - 1)). lia.
  - assert (y <> 1) by (intros ->; apply Hne; f_equal; lia).
    change (month_length (y - 1) 12) with 31. lia.
Qed.

Lemma tomorrow_yesterday (d : datetime) :
  wf_date d -> d <> epoch -> tomorrow (yesterday d) = d.
Proof.
  destruct d as [y m dd]. unfold wf_date, yesterday, tomorrow, epoch. simpl.
  intros [Hy [Hm Hd]] Hne.
  destruct (Z.ltb_spec 1 dd); simpl.
  - destruct (Z.ltb_spec (dd - 1) (month_length y m)); [|lia].
    f_equal; lia.
  - assert (dd = 1) by lia. subst dd.
    destruct (Z.ltb_spec 1 m); simpl.
    + rewrite Z.ltb_irrefl.
      destruct (Z.ltb_spec (m - 1) 12); [|lia]. f_equal; lia.
    + assert (m = 1) by lia. subst m.
      change (month_length (y - 1) 12) with 31. simpl. f_equal; lia.
Qed.

(** A measure that [yesterday] decreases. *)
Lemma yesterday_smaller (d : datetime) :
  wf_date d -> d <> epoch ->
  372 * year (yesterday d) + 31 * month (yesterday d) + day (yesterday d)
  < 372 * year d + 31 * month d + day d.
Proof.
  destruct d as [y m dd]. unfold wf_date, yesterday, epoch.
  cbn [year month day].
  intros [Hy [Hm Hd]] Hne.
  destruct (Z.ltb_spec 1 dd); cbn [year month day]; [lia|].
  destruct (Z.ltb_spec 1 m); cbn [year month day].
  - pose proof (month_length_bounds y (m - 1)). lia.
  - lia.
Qed.

Lemma datetime_eq_dec (a b : datetime) : {a = b} + {a <> b}.
Proof.
  decide equality; apply Z.eq_dec.
Qed.

(** Every date of the calendar is reached from the epoch. *)
Lemma falls_on_total (d : datetime) : wf_date d -> exists w, falls_on d w.
Proof.
  assert (H : forall n d, wf_date d ->
                372 * year d + 31 * month d + day d < Z.of_nat n ->
                exists w, falls_on d w).
  { induction n as [| n IH]; intros e Hwf Hlt.
    - destruct e as [y m dd]. unfold wf_date in Hwf.
      cbn [year month day] in *. lia.
    - destruct (datetime_eq_dec e epoch) as [-> | Hne].
      + exists Monday. constructor.
      + destruct (IH (yesterday e)) as [w Hw].
        * now apply wf_yesterday.
        * pose proof (yesterday_smaller e Hwf Hne). lia.
        * exists (next_dow w). rewrite <- (tomorrow_yesterday e Hwf Hne).
          now constructor. }
  intros Hwf.
  apply (H (Z.to_nat (372 * year d + 31 * month d + day d + 1)) d Hwf).
  destruct d as [y m dd]. unfold wf_date in Hwf.
  cbn [year month day] in *. lia.
Qed.

(** [weekday] counts the week as the calendar does. *)
Lemma falls_on_weekday (d : datetime) (w : DayOfWeek) :
  falls_on d w -> wf_date d /\ weekday d = dow_index w.
Proof.
  induction 1 as [| d w _ [Hwf IH]].
  - split; [|reflexivity]. unfold wf_date, epoch. simpl.
    change (month_length 1 1) with 31. lia.
  - split; [now apply wf_tomorrow|].
    unfold weekday in *. rewrite (toordinal_tomorrow d Hwf).
    destruct w; simpl in *; revert IH; Z.div_mod_to_equations; lia.
Qed.

Lemma falls_on_unique (d : datetime) (w w' : DayOfWeek) :
  falls_on d w -> falls_on d w' -> w = w'.
Proof.
  intros H H'. apply falls_on_weekday in H, H'.
  destruct H as [_ H], H' as [_ H']. rewrite H in H'.
  destruct w, w'; simpl in H'; congruence.
Qed.

(** C6.  Every valid calendar date falls on exactly one day of the
    proleptic Gregorian week, and [get_day_type], which is total, maps it to
    [WEEKEND] exactly when that day is Saturday or Sunday and to [WEEKDAY]
    exactly when it is one of Monday to Friday. *)
Theorem get_day_type_gregorian :
  forall date,
    valid_date date ->
    exists w,
      falls_on date w
      /\ (forall w', falls_on date w' -> w' = w)
      /\ (get_day_type date = WEEKEND <-> w = Saturday \/ w = Sunday)
      /\ (get_day_type date = WEEKDAY <->
          w = Monday \/ w = Tuesday \/ w = Wednesday \/ w = Thursday
          \/ w = Friday).
Proof.
  intros date [Hwf _].
  destruct (falls_on_total date Hwf) as [w Hw].
  exists w. split; [exact Hw|].
  split; [intros w' Hw'; exact (falls_on_unique _ _ _ Hw' Hw)|].
  destruct (falls_on_weekday _ _ Hw) as [_ E].
  unfold get_day_type. rewrite E.
  destruct w; simpl; split; split; intros H;
    try discriminate; try reflexivity; auto 6;
    repeat (destruct H as [H | H]; try discriminate).
Qed.

Lemma get_day_type_gregorian_witness :
  valid_date (mkDate 2009 3 21)
  /\ exists w,
       falls_on (mkDate 2009 3 21) w
       /\ (forall w', falls_on (mkDate 2009 3 21) w' -> w' = w)
       /\ (get_day_type (mkDate 2009 3 21) = WEEKEND <->
           w = Saturday \/ w = Sunday)
       /\ (get_day_type (mkDate 2009 3 21) = WEEKDAY <->
           w = Monday \/ w = Tuesday \/ w = Wednesday \/ w = Thursday
           \/ w = Friday).
Proof.
  assert (H : valid_date (mkDate 2009 3 21)).
  { unfold valid_date, wf_date. simpl.
    change (month_length 2009 3) with 31. lia. }
  split; [exact H|].
  exact (get_day_type_gregorian (mkDate 2009 3 21) H).
Defined.

(** ** Trimming *)

Section Trim.

Lemma lstrip_blank_app (ws x : str) : blank ws -> lstrip (ws ++ x) = lstrip x.
Proof.
  induction 1 as [| c r Hc _ IH]; simpl; [reflexivity|].
  now rewrite Hc.
Qed.

Lemma lstrip_decomp (y : str) : exists ws, blank ws /\ y = ws ++ lstrip y.
Proof.
  induction y as [| c r [ws [Hws E]]]; simpl.
  - exists []. split; [constructor | reflexivity].
  - destruct (isspace c) eqn:Hc.
    + exists (c :: ws). split; [now constructor | simpl; now f_equal].
    + exists []. split; [constructor | reflexivity].
Qed.

Lemma lstrip_idem (y : str) : lstrip (lstrip y) = lstrip y.
Proof.
  induction y as [| c r IH]; simpl; [reflexivity|].
  destruct (isspace c) eqn:Hc; [exact IH|]. simpl. now rewrite Hc.
Qed.

Lemma lstrip_app (y z : str) :
  lstrip (y ++ z) = match lstrip y with
                    | [] => lstrip z
                    | _ :: _ => lstrip y ++ z
                    end.
Proof.
  induction y as [| c r IH]; simpl; [reflexivity|].
  destruct (isspace c); [exact IH | reflexivity].
Qed.

Lemma lstrip_fixed_app (y z : str) :
  lstrip y = y -> y <> [] -> lstrip (y ++ z) = y ++ z.
Proof.
  intros E Hne. rewrite lstrip_app, E. destruct y; [contradiction | reflexivity].
Qed.

Lemma blank_app (a b : str) : blank a -> blank b -> blank (a ++ b).
Proof. intros Ha Hb. apply Forall_app. now split. Qed.

Lemma blank_rev (a : str) : blank a -> blank (rev a).
Proof. apply Forall_rev. Qed.

Lemma rstrip_decomp (x : str) : exists ws, blank ws /\ x = rstrip x ++ ws.
Proof.
  destruct (lstrip_decomp (rev x)) as [ws [Hws E]].
  exists (rev ws). split; [now apply blank_rev|].
  unfold rstrip. rewrite <- rev_app_distr, <- E. now rewrite rev_involutive.
Qed.

Lemma strip_decomp (x : str) :
  exists ws1 ws2, blank ws1 /\ blank ws2 /\ x = ws1 ++ strip x ++ ws2.
Proof.
  destruct (rstrip_decomp x) as [ws2 [H2 E2]].
  destruct (lstrip_decomp (rstrip x)) as [ws1 [H1 E1]].
  exists ws1, ws2. split; [exact H1|]. split; [exact H2|].
  unfold strip. rewrite app_assoc, <- E1. exact E2.
Qed.

Lemma strip_trimmed (x : str) : trimmed (strip x).
Proof.
  unfold trimmed, strip. split; [apply lstrip_idem|].
  destruct (lstrip_decomp (rstrip x)) as [ws [Hws E]].
  assert (Hfix : lstrip (rev (rstrip x)) = rev (rstrip x)).
  { unfold rstrip. rewrite rev_involutive. apply lstrip_idem. }
  rewrite E in Hfix at 1 2. rewrite rev_app_distr, lstrip_app in Hfix.
  destruct (lstrip (rev (lstrip (rstrip x)))) as [| c r] eqn:El.
  - rewrite (lstrip_all_space (rev ws)) in Hfix by now apply blank_rev.
    symmetry in Hfix. apply app_eq_nil in Hfix. destruct Hfix as [Hfix _].
    symmetry. exact Hfix.
  - now apply app_inv_tail in Hfix.
Qed.

Lemma strip_core (ws1 core ws2 : str) :
  blank ws1 -> blank ws2 -> trimmed core ->
  strip (ws1 ++ core ++ ws2) = core.
Proof.
  intros H1 H2 [Hl Hr]. unfold strip, rstrip.
  rewrite !rev_app_distr, <- app_assoc.
  rewrite (lstrip_blank_app (rev ws2)) by now apply blank_rev.
  destruct core as [| c r].
  - simpl. rewrite (lstrip_all_space (rev ws1)) by now apply blank_rev.
    reflexivity.
  - rewrite (lstrip_fixed_app (rev (c :: r)) (rev ws1) Hr).
    + rewrite rev_app_distr, !rev_involutive.
      rewrite lstrip_blank_app by exact H1. exact Hl.
    + simpl. intros E. apply app_eq_nil in E. destruct E as [_ E]. discriminate.
Qed.

Lemma strip_blank_l (ws x : str) : blank ws -> strip (ws ++ x) = strip x.
Proof.
  intros Hws. destruct (strip_decomp x) as [w1 [w2 [H1 [H2 E]]]].
  rewrite E at 1. rewrite app_assoc.
  apply strip_core; [now apply blank_app | exact H2 | apply strip_trimmed].
Qed.

Lemma strip_blank_r (x ws : str) : blank ws -> strip (x ++ ws) = strip x.
Proof.
  intros Hws. destruct (strip_decomp x) as [w1 [w2 [H1 [H2 E]]]].
  rewrite E at 1. rewrite <- !app_assoc.
  apply strip_core; [exact H1 | now apply blank_app | apply strip_trimmed].
Qed.

Lemma occurs_app (c : ascii) (a b : str) :
  occurs c (a ++ b) = occurs c a || occurs c b.
Proof. apply existsb_app. Qed.

Lemma occurs_blank (c : ascii) (ws : str) :
  isspace c = false -> blank ws -> occurs c ws = false.
Proof.
  intros Hc. induction 1 as [| d r Hd _ IH]; simpl; [reflexivity|].
  rewrite IH, orb_false_r.
  destruct (Ascii.eqb_spec c d) as [-> |]; [congruence | reflexivity].
Qed.

(** A non-blank character of the string survives trimming. *)
Lemma occurs_strip (c : ascii) (x : str) :
  isspace c = false -> occurs c (strip x) = occurs c x.
Proof.
  intros Hc. destruct (strip_decomp x) as [w1 [w2 [H1 [H2 E]]]].
  rewrite E at 2. rewrite !occurs_app.
  rewrite (occurs_blank c w1 Hc H1), (occurs_blank c w2 Hc H2).
  now rewrite orb_false_r.
Qed.

End Trim.

(** ** Removing the annotations *)

Lemma has_close_occurs (s : str) : has_close s = occurs ")" s.
Proof. reflexivity. Qed.

Lemma occurs_cons (c d : ascii) (r : str) :
  occurs c (d :: r) = Ascii.eqb c d || occurs c r.
Proof. reflexivity. Qed.

(** A scan that leaves no opening parenthesis behind ends outside any
    match, so whatever follows is scanned on its own. *)
Lemma re_sub_scan_app (p x : str) (inside : bool) :
  (inside = true -> has_close p = true) ->
  occurs "(" (re_sub_scan inside p) = false ->
  re_sub_scan inside (p ++ x) = re_sub_scan inside p ++ re_sub_scan false x.
Proof.
  revert inside. induction p as [| c r IH]; intros inside Hin Hopen.
  - destruct inside; [|reflexivity]. specialize (Hin eq_refl). discriminate.
  - change ((c :: r) ++ x) with (c :: (r ++ x)).
    destruct inside; cbn [re_sub_scan] in *.
    + specialize (Hin eq_refl). change (has_close (c :: r)) with (occurs ")" (c :: r)) in Hin.
      rewrite occurs_cons in Hin.
      destruct (Ascii.eqb c ")") eqn:Ec.
      * apply IH; [discriminate | exact Hopen].
      * apply IH; [|exact Hopen]. intros _.
        rewrite Ascii.eqb_sym, Ec in Hin. exact Hin.
    + destruct (Ascii.eqb c "(") eqn:Ec; cbn [andb] in *.
      * destruct (has_close r) eqn:Hc.
        -- unfold has_close in *. rewrite existsb_app, Hc. cbn [orb].
           apply IH; [reflexivity | exact Hopen].
        -- rewrite occurs_cons, Ascii.eqb_sym, Ec in Hopen. discriminate.
      * rewrite occurs_cons, Ascii.eqb_sym, Ec in Hopen. cbn [orb] in Hopen.
        change ((c :: re_sub_scan false r) ++ re_sub_scan false x)
          with (c :: (re_sub_scan false r ++ re_sub_scan false x)).
        f_equal. apply IH; [discriminate | exact Hopen].
Qed.

Lemma re_sub_blank (ws : str) : blank ws -> re_sub_scan false ws = ws.
Proof.
  induction 1 as [| c r Hc _ IH]; [reflexivity|].
  cbn [re_sub_scan].
  destruct (Ascii.eqb_spec c "(") as [-> |]; [discriminate|].
  cbn [andb]. now rewrite IH.
Qed.

Lemma re_sub_scan_close (a x : str) :
  occurs ")" a = false ->
  re_sub_scan true (a ++ ")"%char :: x) = re_sub_scan false x.
Proof.
  induction a as [| c r IH]; intros H.
  - simpl. reflexivity.
  - rewrite occurs_cons in H. apply orb_false_iff in H. destruct H as [Hc Hr].
    change ((c :: r) ++ ")"%char :: x) with (c :: (r ++ ")"%char :: x)).
    cbn [re_sub_scan]. rewrite Ascii.eqb_sym, Hc. now apply IH.
Qed.

Lemma re_sub_annotation (a : str) :
  occurs ")" a = false -> re_sub_parens (annotation a) = [].
Proof.
  intros H. unfold re_sub_parens, annotation. cbn [re_sub_scan].
  rewrite Ascii.eqb_refl. unfold has_close. rewrite existsb_app.
  cbn [existsb]. rewrite Ascii.eqb_refl, orb_true_r. cbn [andb orb].
  now rewrite (re_sub_scan_close a [] H).
Qed.

(** The cleaned form of a token whose parentheses all close does not change
    when blanks and an annotation are appended. *)
Lemma clean_date_annotation (p ws a : str) :
  blank ws ->
  occurs ")" a = false ->
  occurs "(" (clean_date p) = false ->
  clean_date (p ++ ws ++ annotation a) = clean_date p.
Proof.
  intros Hws Ha Hopen. unfold clean_date in *.
  rewrite occurs_strip in Hopen by reflexivity.
  unfold re_sub_parens in *.
  rewrite (re_sub_scan_app p (ws ++ annotation a) false)
    by (assumption || discriminate).
  rewrite (re_sub_scan_app ws (annotation a) false).
  - rewrite (re_sub_blank ws Hws).
    change (re_sub_scan false (annotation a)) with (re_sub_parens (annotation a)).
    rewrite (re_sub_annotation a Ha).
    rewrite app_nil_r. now apply strip_blank_r.
  - discriminate.
  - rewrite (re_sub_blank ws Hws). now apply occurs_blank.
Qed.

(** The token the loop sees once the annotation is appended. *)
Lemma strip_annotated (t a : str) :
  exists ws, blank ws /\ strip (t ++ annotation a) = strip t ++ ws ++ annotation a.
Proof.
  destruct (strip_decomp t) as [w1 [w2 [H1 [H2 E]]]].
  destruct (strip t) as [| c r] eqn:Es.
  - exists []. split; [constructor|]. simpl in *. subst t.
    replace ((w1 ++ w2) ++ annotation a)
      with ((w1 ++ w2) ++ annotation a ++ []) by now rewrite app_nil_r.
    apply (strip_core (w1 ++ w2) (annotation a) []);
      [now apply blank_app | constructor|].
    unfold trimmed, annotation. split; [reflexivity|].
    simpl. rewrite rev_app_distr. reflexivity.
  - exists w2. split; [exact H2|].
    rewrite E at 1.
    replace ((w1 ++ (c :: r) ++ w2) ++ annotation a)
      with (w1 ++ ((c :: r) ++ w2 ++ annotation a) ++ [])
      by (now rewrite app_nil_r, <- !app_assoc).
    apply (strip_core w1 ((c :: r) ++ w2 ++ annotation a) []);
      [exact H1 | constructor|].
    pose proof (strip_trimmed t) as [Tl Tr]. rewrite Es in Tl, Tr.
    split.
    + apply lstrip_fixed_app; [exact Tl | discriminate].
    + unfold annotation. rewrite !rev_app_distr. simpl.
      rewrite rev_app_distr. reflexivity.
Qed.

Lemma clean_date_strip_annotated (t a : str) :
  occurs ")" a = false ->
  occurs "(" (clean_date (strip t)) = false ->
  clean_date (strip (t ++ annotation a)) = clean_date (strip t).
Proof.
  intros Ha Hopen. destruct (strip_annotated t a) as [ws [Hws ->]].
  now apply clean_date_annotation.
Qed.

(** ** Splitting *)

Lemma split_cons (sep c : ascii) (r : str) :
  split sep (c :: r)
  = if Ascii.eqb c sep then [] :: split sep r
    else match split sep r with
         | t :: ts => (c :: t) :: ts
         | [] => [[c]]
         end.
Proof. reflexivity. Qed.

Lemma split_no_sep (sep : ascii) (t : str) :
  occurs sep t = false -> split sep t = [t].
Proof.
  induction t as [| c r IH]; intros H; [reflexivity|].
  rewrite occurs_cons in H. apply orb_false_iff in H. destruct H as [Hc Hr].
  rewrite split_cons, Ascii.eqb_sym, Hc, (IH Hr). reflexivity.
Qed.

Lemma split_app_sep (sep : ascii) (p y : str) :
  split sep (p ++ sep :: y) = split sep p ++ split sep y.
Proof.
  induction p as [| c r IH].
  - simpl app. rewrite split_cons, Ascii.eqb_refl. reflexivity.
  - change ((c :: r) ++ sep :: y) with (c :: (r ++ sep :: y)).
    rewrite !split_cons, IH.
    destruct (Ascii.eqb c sep); [reflexivity|].
    destruct (split sep r) as [| t ts] eqn:E; [|reflexivity].
    now apply split_nonempty in E.
Qed.

(** A separator-free string in front of a token boundary is a token. *)
Lemma split_token (w after : str) :
  occurs "," w = false -> token_end after ->
  split "," (w ++ after) = w :: tl (split "," after).
Proof.
  intros Hw [-> | [q ->]].
  - rewrite app_nil_r. now apply split_no_sep.
  - rewrite split_app_sep, (split_no_sep _ _ Hw). reflexivity.
Qed.

Lemma split_around (before w after : str) :
  token_start before -> occurs "," w = false -> token_end after ->
  exists A B, forall x,
      occurs "," x = false ->
      split "," (before ++ (w ++ x) ++ after) = A ++ (w ++ x) :: B.
Proof.
  intros Hb Hw Ha.
  exists (match before with [] => [] | _ => split "," (removelast before) end),
         (tl (split "," after)).
  intros x Hx.
  assert (Hwx : occurs "," (w ++ x) = false)
    by (rewrite occurs_app, Hw, Hx; reflexivity).
  destruct Hb as [-> | [p ->]].
  - simpl. now apply split_token.
  - rewrite removelast_last. rewrite <- app_assoc. simpl app.
    rewrite split_app_sep, (split_token _ _ Hwx Ha).
    destruct p; reflexivity.
Qed.

Lemma split_app_no_sep (sep : ascii) (y w : str) :
  occurs sep w = false ->
  split sep (y ++ w)
  = removelast (split sep y) ++ [last (split sep y) [] ++ w].
Proof.
  intros Hw. induction y as [| c r IH].
  - simpl. now apply split_no_sep.
  - change ((c :: r) ++ w) with (c :: (r ++ w)).
    rewrite !split_cons, IH.
    destruct (split sep r) as [| t ts] eqn:E; [now apply split_nonempty in E|].
    destruct (Ascii.eqb c sep).
    + reflexivity.
    + destruct ts as [| t' ts']; reflexivity.
Qed.

Lemma split1_first (sep : ascii) (c y : str) :
  occurs sep c = false -> split1 sep (c ++ sep :: y) = [c; y].
Proof.
  induction c as [| a r IH]; intros H.
  - simpl. now rewrite Ascii.eqb_refl.
  - rewrite occurs_cons in H. apply orb_false_iff in H. destruct H as [Ha Hr].
    simpl. rewrite Ascii.eqb_sym, Ha, (IH Hr). reflexivity.
Qed.

(** Trimming the date segment first does not change the trimmed tokens. *)
Lemma split_blank_l (sep : ascii) (ws y : str) :
  isspace sep = false -> blank ws ->
  map strip (split sep (ws ++ y)) = map strip (split sep y).
Proof.
  intros Hsep. induction 1 as [| c r Hc _ IH]; [reflexivity|].
  change ((c :: r) ++ y) with (c :: (r ++ y)). rewrite split_cons.
  destruct (Ascii.eqb_spec c sep) as [-> |]; [congruence|].
  rewrite <- IH.
  destruct (split sep (r ++ y)) as [| t ts] eqn:E;
    [now apply split_nonempty in E|].
  simpl. f_equal.
  apply (strip_blank_l [c] t). now repeat constructor.
Qed.

Lemma split_blank_r (sep : ascii) (y ws : str) :
  isspace sep = false -> blank ws ->
  map strip (split sep (y ++ ws)) = map strip (split sep y).
Proof.
  intros Hsep Hws.
  rewrite split_app_no_sep by now apply occurs_blank.
  rewrite map_app. simpl. rewrite strip_blank_r by exact Hws.
  transitivity (map strip (removelast (split sep y) ++ [last (split sep y) []])).
  - now rewrite map_app.
  - f_equal. symmetry. apply app_removelast_last, split_nonempty.
Qed.

Lemma split_strip (sep : ascii) (x : str) :
  isspace sep = false ->
  map strip (split sep (strip x)) = map strip (split sep x).
Proof.
  intros Hsep. destruct (strip_decomp x) as [w1 [w2 [H1 [H2 E]]]].
  rewrite E at 2.
  rewrite split_blank_l by assumption.
  now rewrite split_blank_r by assumption.
Qed.

(** ** The annotation of a date token *)

Lemma parse_dates_token (A B : list str) (x x' : str) (dates : list datetime) :
  clean_date x' = clean_date x ->
  parse_dates (A ++ x' :: B) dates = parse_dates (A ++ x :: B) dates
  \/ (parse_dates (A ++ x :: B) dates = Raise (ValueError (msg_invalid_date x))
      /\ parse_dates (A ++ x' :: B) dates
         = Raise (ValueError (msg_invalid_date x'))).
Proof.
  intros E. revert dates. induction A as [| t A IH]; intros dates; simpl.
  - unfold clean_date in E. rewrite E.
    destruct (strptime (strip (re_sub_parens x))); [left | right; split];
      reflexivity.
  - destruct (strptime (strip (re_sub_parens t))); [apply IH | left; reflexivity].
Qed.

Lemma parse_input_body_request (tier segment : str) :
  occurs ":" tier = false ->
  parse_input_body (tier ++ ":"%char :: segment)
  = match CustomerType_of_value (strip tier) with
    | None => Raise (ValueError (msg_invalid_customer (strip tier)))
    | Some customer_type =>
        dates <- parse_dates (map strip (split "," segment)) [] ;;
        match dates with
        | [] => Raise (ValueError msg_no_dates)
        | _ :: _ => Ok (customer_type, dates)
        end
    end.
Proof.
  intros H. unfold parse_input_body. rewrite (split1_first _ _ _ H).
  cbn [map]. now rewrite split_strip.
Qed.

Lemma occurs_annotation (c : ascii) (a : str) :
  Ascii.eqb c "(" = false -> Ascii.eqb c ")" = false ->
  occurs c a = false -> occurs c (annotation a) = false.
Proof.
  intros H1 H2 Ha. unfold annotation.
  rewrite occurs_cons, occurs_app, H1, Ha. simpl. now rewrite H2.
Qed.

Lemma bind_congr {A B : Type} (m m' : result A) (k : A -> result B) :
  m = m' -> bind m k = bind m' k.
Proof. now intros ->. Qed.

Lemma bind_raise {A B : Type} (m : result A) (k : A -> result B) (e : exn) :
  m = Raise e -> bind m k = Raise e.
Proof. now intros ->. Qed.

(** The outcome of the body of [parse_input] on a request and on the same
    request with one closed token annotated. *)
Lemma parse_input_body_annotated tier before token after a :
  occurs ":" tier = false ->
  token_start before ->
  occurs "," token = false ->
  token_end after ->
  occurs ")" a = false ->
  occurs "," a = false ->
  occurs "(" (clean_date (strip token)) = false ->
  parse_input_body (request_around tier before (token ++ annotation a) after)
  = parse_input_body (request_around tier before token after)
  \/ (parse_input_body (request_around tier before token after)
      = Raise (ValueError (msg_invalid_date (strip token)))
      /\ parse_input_body
           (request_around tier before (token ++ annotation a) after)
         = Raise (ValueError
                    (msg_invalid_date (strip (token ++ annotation a))))).
Proof.
  intros Htier Hb Htok Ha Hclose Hcomma Hopen. unfold request_around.
  rewrite !(parse_input_body_request tier) by exact Htier.
  destruct (CustomerType_of_value (strip tier)) as [ct|]; [|left; reflexivity].
  destruct (split_around before token after Hb Htok Ha) as [A [B Hsplit]].
  rewrite (Hsplit (annotation a)) by now apply occurs_annotation.
  pose proof (Hsplit [] eq_refl) as H0. rewrite app_nil_r in H0. rewrite H0.
  rewrite !map_app. cbn [map].
  destruct (parse_dates_token (map strip A) (map strip B)
              (strip token) (strip (token ++ annotation a)) []
              (clean_date_strip_annotated token a Hclose Hopen))
    as [E | [E1 E2]].
  - left. apply bind_congr. exact E.
  - right. split; apply bind_raise; assumption.
Qed.

(** ** What [strptime] accepts *)

Lemma str_eqb_eq (a b : str) : str_eqb a b = true -> a = b.
Proof.
  revert b. induction a as [| x a IH]; intros [| y b] H; simpl in H;
    try discriminate; [reflexivity|].
  apply andb_true_iff in H. destruct H as [Hx Hab].
  apply Ascii.eqb_eq in Hx. subst y. f_equal. now apply IH.
Qed.

Lemma in_range_not_open (lo hi c : ascii) :
  in_range lo hi c = true -> 40 < code lo -> Ascii.eqb "(" c = false.
Proof.
  unfold in_range. intros H Hlo.
  destruct (Ascii.eqb_spec "(" c) as [<- |]; [|reflexivity].
  change (code "(") with 40 in H. lia.
Qed.

Lemma eqb_not_open (c k : ascii) :
  Ascii.eqb c k = true -> Ascii.eqb "(" k = false -> Ascii.eqb "(" c = false.
Proof.
  intros H Hk. apply Ascii.eqb_eq in H. now subst c.
Qed.

Lemma lower_not_open (c k : ascii) :
  lower c = k -> Ascii.eqb "(" k = false -> Ascii.eqb "(" c = false.
Proof.
  intros H Hk. destruct (Ascii.eqb_spec "(" c) as [<- |]; [|reflexivity].
  subst k. vm_compute in Hk. discriminate.
Qed.

Lemma re_d_sound (s d r : str) :
  In (d, r) (re_d s) -> s = d ++ r /\ occurs "(" d = false.
Proof.
  unfold re_d. intros H.
  repeat (apply in_app_or in H; destruct H as [H | H]);
    destruct s as [| c1 [| c2 s']]; try contradiction;
    match type of H with
    | In _ (if ?b then _ else _) =>
        destruct b eqn:E; [|contradiction];
        destruct H as [H | []]; injection H as <- <-;
        match type of E with
        | _ && _ = true => apply andb_true_iff in E; destruct E as [E1 E2]
        | _ => idtac
        end
    end;
    (split; [reflexivity|]); rewrite ?occurs_cons;
    change (occurs "(" []) with false; rewrite ?orb_false_r;
    repeat match goal with
      | |- _ || _ = false => apply orb_false_iff; split
      | H : is_digit ?c = true |- Ascii.eqb "(" ?c = false =>
          apply (in_range_not_open _ _ _ H); vm_compute; reflexivity
      | H : in_range _ _ ?c = true |- Ascii.eqb "(" ?c = false =>
          apply (in_range_not_open _ _ _ H); vm_compute; reflexivity
      | H : Ascii.eqb ?c _ = true |- Ascii.eqb "(" ?c = false =>
          apply (eqb_not_open _ _ H); reflexivity
      end.
Qed.

Lemma re_b_sound (s b r : str) :
  re_b s = Some (b, r) -> s = b ++ r /\ occurs "(" b = false.
Proof.
  unfold re_b. destruct s as [| c1 [| c2 [| c3 s']]]; try discriminate.
  destruct (existsb _ _) eqn:E; [|discriminate].
  intros H. injection H as <- <-. split; [reflexivity|].
  apply existsb_exists in E. destruct E as [m [Hin Hm]].
  apply str_eqb_eq in Hm. cbn [map] in Hm.
  rewrite !occurs_cons. change (occurs "(" []) with false.
  rewrite orb_false_r.
  assert (H3 : Ascii.eqb "(" c1 = false /\ Ascii.eqb "(" c2 = false
               /\ Ascii.eqb "(" c3 = false).
  { simpl in Hin.
    repeat (destruct Hin as [<- | Hin]; [
      injection Hm as H1 H2 H3;
      repeat split; eapply lower_not_open; try eassumption; reflexivity |]).
    contradiction. }
  destruct H3 as [-> [-> ->]]. reflexivity.
Qed.

Lemma re_Y_sound (s y r : str) :
  re_Y s = Some (y, r) -> s = y ++ r /\ occurs "(" y = false.
Proof.
  unfold re_Y. destruct s as [| c1 [| c2 [| c3 [| c4 s']]]]; try discriminate.
  destruct (forallb _ _) eqn:E; [|discriminate].
  intros H. injection H as <- <-. split; [reflexivity|].
  cbn [forallb] in E. rewrite andb_true_r in E.
  apply andb_true_iff in E. destruct E as [E1 E].
  apply andb_true_iff in E. destruct E as [E2 E].
  apply andb_true_iff in E. destruct E as [E3 E4].
  rewrite !occurs_cons. change (occurs "(" []) with false.
  rewrite (in_range_not_open _ _ _ E1), (in_range_not_open _ _ _ E2),
    (in_range_not_open _ _ _ E3), (in_range_not_open _ _ _ E4);
    try reflexivity; vm_compute; reflexivity.
Qed.

Lemma re_match_from_sound (alts : list (str * str)) (g : re_groups) :
  re_match_from alts = Some g ->
  exists s1 s2,
    In (g_d g, s1) alts /\ re_b s1 = Some (g_b g, s2)
    /\ re_Y s2 = Some (g_Y g, g_rest g).
Proof.
  induction alts as [| [d s1] alts IH]; simpl; [discriminate|].
  intros H.
  assert (Hrec : re_match_from alts = Some g ->
                 exists s1' s2,
                   ((d, s1) = (g_d g, s1') \/ In (g_d g, s1') alts)
                   /\ re_b s1' = Some (g_b g, s2)
                   /\ re_Y s2 = Some (g_Y g, g_rest g)).
  { intros H'. destruct (IH H') as [s1' [s2 [Hin Hrest]]].
    exists s1', s2. split; [now right | exact Hrest]. }
  destruct (re_b s1) as [[b s2]|] eqn:Eb; [|now apply Hrec].
  destruct (re_Y s2) as [[y s3]|] eqn:Ey; [|now apply Hrec].
  injection H as <-. simpl. exists s1, s2.
  split; [now left|]. split; assumption.
Qed.

(** A string [strptime] accepts holds no opening parenthesis. *)
Lemma strptime_no_open (s : str) (d : datetime) :
  strptime s = Some d -> occurs "(" s = false.
Proof.
  unfold strptime, re_match.
  destruct (re_match_from (re_d s)) as [g|] eqn:E; [|discriminate].
  destruct (g_rest g) eqn:Er; [|discriminate]. intros _.
  destruct (re_match_from_sound _ _ E) as [s1 [s2 [Hd [Hb Hy]]]].
  apply re_d_sound in Hd. apply re_b_sound in Hb. apply re_Y_sound in Hy.
  destruct Hd as [-> Hd], Hb as [-> Hb], Hy as [-> Hy].
  rewrite Er, !occurs_app, Hd, Hb, Hy. reflexivity.
Qed.

Lemma strptime_valid (s : str) (d : datetime) :
  strptime s = Some d -> valid_date d.
Proof.
  unfold strptime.
  destruct (re_match s) as [g|]; [|discriminate].
  destruct (g_rest g); [|discriminate].
  destruct (int (g_Y g)) as [y|]; [|discriminate].
  destruct (index (map lower (g_b g)) a_month) as [m|]; [|discriminate].
  destruct (int (g_d g)) as [dd|]; [|discriminate].
  unfold datetime_new.
  destruct (check_date_fields y m dd) eqn:E; [|discriminate].
  intros H. injection H as <-.
  unfold check_date_fields, MINYEAR, MAXYEAR in E.
  repeat (apply andb_true_iff in E; destruct E as [E ?]).
  unfold valid_date, wf_date. cbn [year month day].
  rewrite month_length_days_in_month by lia. lia.
Qed.

(** Every token of a request that parses has all its parentheses closed. *)
Lemma parsed_token_closed tier before token after r :
  occurs ":" tier = false ->
  token_start before ->
  occurs "," token = false ->
  token_end after ->
  parse_input (request_around tier before token after) = Ok r ->
  occurs "(" (clean_date (strip token)) = false.
Proof.
  intros Htier Hb Htok Ha. unfold parse_input, request_around.
  rewrite (parse_input_body_request tier) by exact Htier.
  destruct (CustomerType_of_value (strip tier)) as [ct|]; [|discriminate].
  destruct (split_around before token after Hb Htok Ha) as [A [B Hsplit]].
  pose proof (Hsplit [] eq_refl) as H0. rewrite app_nil_r in H0. rewrite H0.
  destruct (parse_dates _ []) as [dates | e] eqn:E; [|discriminate].
  intros _. apply parse_dates_ok in E. destruct E as [ds [_ [_ Hall]]].
  rewrite map_app in Hall. apply Forall2_app_inv_l in Hall.
  destruct Hall as [ds1 [ds2 [_ [Hall _]]]].
  inversion Hall as [| x d xs ds' Hx _]; subst.
  now apply strptime_no_open in Hx.
Qed.

(** What [parse_input] returns: at least one date, each a valid date of the
    calendar, so that [get_day_type] classifies it by its day of the week. *)
Lemma parse_input_dates_valid input_str customer_type dates :
  parse_input input_str = Ok (customer_type, dates) ->
  dates <> [] /\ Forall valid_date dates.
Proof.
  unfold parse_input, parse_input_body.
  destruct (map strip (split1 ":" input_str)) as [| c [| d [| x p]]];
    try discriminate.
  destruct (CustomerType_of_value c); [|discriminate].
  destruct (parse_dates (map strip (split "," d)) []) as [ds | e] eqn:E;
    [|discriminate].
  simpl. destruct ds as [| d0 ds]; [discriminate|].
  intros H. injection H as _ <-. split; [discriminate|].
  apply parse_dates_ok in E. destruct E as [ds' [E [_ Hall]]].
  simpl in E. subst ds'.
  clear -Hall. induction Hall as [| t d1 ts ds1 Ht _ IH]; constructor;
    [now apply strptime_valid in Ht | exact IH].
Qed.

(** C8 (amended).  Take any request and any token of its date list whose
    parentheses all close, as is every token of a request that parses, and
    append to the token a parenthesized annotation of any text free of
    closing parentheses and commas.  The body of [parse_input] then ends as
    before, except that a failure on that very token names it as now
    written; the request parses exactly when it did, to the same customer
    type and dates; and [find_cheapest_hotel] and [get_detailed_analysis]
    return what they returned. *)
Theorem annotation_ignored :
  forall tier before token after a,
    occurs ":" tier = false ->
    token_start before ->
    occurs "," token = false ->
    token_end after ->
    occurs ")" a = false ->
    occurs "," a = false ->
    occurs "(" (clean_date (strip token)) = false ->
    let original := request_around tier before token after in
    let annotated := request_around tier before (token ++ annotation a) after in
    (parse_input_body annotated = parse_input_body original
     \/ (fails_with original (InvalidDateFormat (strip token))
         /\ fails_with annotated
              (InvalidDateFormat (strip (token ++ annotation a)))))
    /\ (forall r, parse_input original = Ok r <-> parse_input annotated = Ok r)
    /\ (forall k,
           fails_with original k ->
           fails_with annotated k
           \/ (fails_with original (InvalidDateFormat (strip token))
               /\ fails_with annotated
                    (InvalidDateFormat (strip (token ++ annotation a)))))
    /\ (forall self name,
           find_cheapest_hotel self original = Ok name ->
           find_cheapest_hotel self annotated = Ok name)
    /\ (forall strftime self result,
           get_detailed_analysis strftime self original = Ok result ->
           get_detailed_analysis strftime self annotated = Ok result).
Proof.
  intros tier before token after a Htier Hb Htok Ha Hclose Hcomma Hopen
         original annotated.
  pose proof (parse_input_body_annotated tier before token after a
                Htier Hb Htok Ha Hclose Hcomma Hopen) as Hbody.
  fold original annotated in Hbody.
  assert (Hok : forall r, parse_input original = Ok r
                          <-> parse_input annotated = Ok r).
  { intros r. unfold parse_input.
    destruct Hbody as [E | [E1 E2]];
      [rewrite E; destruct (parse_input_body original);
       [reflexivity | split; discriminate]|].
    rewrite E1, E2. split; discriminate. }
  assert (Hfail : parse_input_body annotated = parse_input_body original
                  \/ (fails_with original (InvalidDateFormat (strip token))
                      /\ fails_with annotated
                           (InvalidDateFormat (strip (token ++ annotation a))))).
  { destruct Hbody as [E | [E1 E2]]; [now left | right].
    unfold fails_with, parse_input. rewrite E1, E2. split; reflexivity. }
  split; [exact Hfail|]. split; [exact Hok|]. split; [|split].
  - intros k Hk. destruct Hfail as [E | H]; [left | now right].
    unfold fails_with, parse_input in *. rewrite E.
    destruct (parse_input_body original) as [r | e]; [discriminate|].
    injection Hk as Hk. apply app_inv_head in Hk. injection Hk as Hk.
    now rewrite Hk.
  - intros self name. unfold find_cheapest_hotel.
    destruct (parse_input original) as [r | e]; [|discriminate].
    now rewrite (proj1 (Hok r) eq_refl).
  - intros strftime self result. unfold get_detailed_analysis.
    destruct (parse_input original) as [r | e]; [|discriminate].
    now rewrite (proj1 (Hok r) eq_refl).
Qed.

Lemma annotation_ignored_witness :
  occurs "(" (clean_date (strip (lit " 21Mar2009(sat)"))) = false
  /\ find_cheapest_hotel init (lit "Rewards: 21Mar2009(sat), 22Mar2009")
     = Ok (lit "Ridgewood")
  /\ find_cheapest_hotel init (lit "Rewards: 21Mar2009(sat)(mon), 22Mar2009")
     = Ok (lit "Ridgewood").
Proof.
  assert (H : occurs "(" (clean_date (strip (lit " 21Mar2009(sat)"))) = false)
    by reflexivity.
  assert (Hf : find_cheapest_hotel init
                 (lit "Rewards: 21Mar2009(sat), 22Mar2009")
               = Ok (lit "Ridgewood")) by (vm_compute; reflexivity).
  split; [exact H|]. split; [exact Hf|].
  destruct (annotation_ignored (lit "Rewards") [] (lit " 21Mar2009(sat)")
              (lit ", 22Mar2009") (lit "mon")
              eq_refl (or_introl eq_refl) eq_refl
              (or_intror (ex_intro _ (lit " 22Mar2009") eq_refl))
              eq_refl eq_refl H) as [_ [_ [_ [Hsel _]]]].
  exact (Hsel init (lit "Ridgewood") Hf).
Defined.

(** C8 (as stated) fails in two ways.  A token with an unclosed
    parenthesis does not parse, and with an annotation appended it does; and
    an annotation whose text holds a comma is split with the date list, so
    that a request that parsed no longer does. *)
Lemma annotation_changes_outcome :
  (let original := request_around (lit "Regular") [] (lit " 16Mar2009(mon") [] in
   let annotated :=
     request_around (lit "Regular") []
       (lit " 16Mar2009(mon" ++ annotation (lit "tue")) [] in
   original = lit "Regular: 16Mar2009(mon"
   /\ annotated = lit "Regular: 16Mar2009(mon(tue)"
   /\ fails_with original (InvalidDateFormat (lit "16Mar2009(mon"))
   /\ parse_input annotated = Ok (REGULAR, [mkDate 2009 3 16])
   /\ parse_input annotated <> parse_input original
   /\ find_cheapest_hotel init annotated = Ok (lit "Lakewood")
   /\ find_cheapest_hotel init annotated <> find_cheapest_hotel init original)
  /\
  (let original := request_around (lit "Regular") [] (lit " 16Mar2009") [] in
   let annotated :=
     request_around (lit "Regular") []
       (lit " 16Mar2009" ++ annotation (lit "sat,sun")) [] in
   original = lit "Regular: 16Mar2009"
   /\ annotated = lit "Regular: 16Mar2009(sat,sun)"
   /\ parse_input original = Ok (REGULAR, [mkDate 2009 3 16])
   /\ fails_with annotated (InvalidDateFormat (lit "16Mar2009(sat"))
   /\ parse_input annotated <> parse_input original
   /\ find_cheapest_hotel init original = Ok (lit "Lakewood")
   /\ find_cheapest_hotel init annotated <> find_cheapest_hotel init original).
Proof.
  cbv zeta. repeat split; try (vm_compute; reflexivity);
    vm_compute; discriminate.
Qed.

(** ** The date tokens [strptime] accepts, by their layout

    [strptime] with the format of the parser reads a day of one or two
    digits and a month abbreviation in any letter case: on a trimmed string
    it succeeds exactly when the string is written in [date_layout]. *)

Lemma code_inj (a b : ascii) : code a = code b -> a = b.
Proof.
  unfold code. intros H. apply Nat2Z.inj in H.
  rewrite <- (ascii_nat_embedding a), <- (ascii_nat_embedding b).
  now rewrite H.
Qed.

Lemma eqb_code (a b : ascii) : Ascii.eqb a b = (code a =? code b).
Proof.
  destruct (Ascii.eqb_spec a b) as [-> | Hne].
  - symmetry. apply Z.eqb_refl.
  - symmetry. apply Z.eqb_neq. intros H. apply Hne. now apply code_inj.
Qed.

Lemma in_range_true (lo hi c : ascii) :
  in_range lo hi c = true <-> code lo <= code c <= code hi.
Proof.
  unfold in_range. rewrite andb_true_iff, !Z.leb_le. reflexivity.
Qed.

Lemma in_range_false (lo hi c : ascii) :
  in_range lo hi c = false <-> code c < code lo \/ code hi < code c.
Proof.
  unfold in_range. rewrite andb_false_iff, !Z.leb_gt. reflexivity.
Qed.

Lemma isspace_digit (c : ascii) :
  code "0" <= code c <= code "9" -> isspace c = false.
Proof.
  change (code "0") with 48. change (code "9") with 57.
  intros H. unfold isspace. cbv zeta.
  repeat match goal with
         | |- context [?a <=? ?b] => destruct (Z.leb_spec a b)
         | |- context [?a =? ?b] => destruct (Z.eqb_spec a b)
         end; try reflexivity; lia.
Qed.

(** The letters of a month abbreviation are neither digits nor spaces. *)
Lemma lower_letter (c : ascii) :
  in_range "a" "z" (lower c) = true -> is_digit c = false /\ isspace c = false.
Proof.
  destruct c as [[] [] [] [] [] [] [] []]; vm_compute; intros H;
    first [discriminate H | split; reflexivity].
Qed.

(** Evaluates the codes of the literal characters. *)
Ltac eval_codes :=
  repeat match goal with
    | |- context [code (Ascii ?a ?b ?c ?d ?e ?f ?g ?h)] =>
        let v := eval vm_compute in (code (Ascii a b c d e f g h)) in
        change (code (Ascii a b c d e f g h)) with v
    | H : context [code (Ascii ?a ?b ?c ?d ?e ?f ?g ?h)] |- _ =>
        let v := eval vm_compute in (code (Ascii a b c d e f g h)) in
        change (code (Ascii a b c d e f g h)) with v in H
    end.

(** Boolean facts on characters, as facts on their codes. *)
Ltac code_facts :=
  unfold is_digit in *;
  repeat match goal with
    | H : _ && _ = true |- _ => apply andb_true_iff in H; destruct H
    | H : Ascii.eqb _ _ = true |- _ => rewrite eqb_code in H; apply Z.eqb_eq in H
    | H : Ascii.eqb _ _ = false |- _ => rewrite eqb_code in H; apply Z.eqb_neq in H
    | H : in_range _ _ _ = true |- _ => apply in_range_true in H
    | H : in_range _ _ _ = false |- _ => apply in_range_false in H
    end;
  eval_codes.

Lemma re_d_shape (s d r : str) :
  In (d, r) (re_d s) ->
  s = d ++ r
  /\ ((digits d /\ (List.length d = 1 \/ List.length d = 2)%nat)
      \/ exists c, d = [" "%char; c]).
Proof.
  unfold re_d. intros H.
  repeat (apply in_app_or in H; destruct H as [H | H]);
    destruct s as [| c1 [| c2 s']]; try contradiction;
    match type of H with
    | In _ (if ?b then _ else _) =>
        destruct b eqn:E; [|contradiction];
        destruct H as [H | []]; injection H as <- <-
    end;
    (split; [reflexivity|]);
    try (right; apply andb_true_iff in E; destruct E as [E _];
         apply Ascii.eqb_eq in E; subst; eexists; reflexivity);
    left; (split; [| simpl; auto]); code_facts;
    unfold digits; eval_codes; repeat constructor; lia.
Qed.

Lemma re_b_shape (s b r : str) :
  re_b s = Some (b, r) ->
  s = b ++ r /\ List.length b = 3%nat
  /\ existsb (str_eqb (map lower b)) (tl a_month) = true.
Proof.
  unfold re_b. destruct s as [| c1 [| c2 [| c3 s']]]; try discriminate.
  destruct (existsb _ _) eqn:E; [|discriminate].
  intros H. injection H as <- <-. repeat split. exact E.
Qed.

Lemma re_Y_shape (s y r : str) :
  re_Y s = Some (y, r) ->
  s = y ++ r /\ List.length y = 4%nat /\ digits y.
Proof.
  unfold re_Y. destruct s as [| c1 [| c2 [| c3 [| c4 s']]]]; try discriminate.
  destruct (forallb _ _) eqn:E; [|discriminate].
  intros H. injection H as <- <-. repeat split.
  cbn [forallb] in E. code_facts. unfold digits. eval_codes.
  repeat constructor; lia.
Qed.

Lemma lstrip_head (x : str) (c : ascii) (r : str) :
  lstrip x = c :: r -> isspace c = false.
Proof.
  induction x as [| a x IH]; simpl; [discriminate|].
  destruct (isspace a) eqn:E; [exact IH|].
  intros H. injection H as <- _. exact E.
Qed.

Lemma lstrip_fixed (x : str) :
  match x with c :: _ => isspace c = false | [] => True end -> lstrip x = x.
Proof.
  destruct x as [| c r]; simpl; [reflexivity|]. now intros ->.
Qed.

Lemma strip_no_space (s : str) :
  Forall (fun c => isspace c = false) s -> strip s = s.
Proof.
  intros H. unfold strip, rstrip.
  rewrite (lstrip_fixed (rev s)).
  - rewrite rev_involutive. apply lstrip_fixed.
    destruct H; [exact I | assumption].
  - apply Forall_rev in H. destruct H; [exact I | assumption].
Qed.

Lemma digits_no_space (s : str) :
  digits s -> Forall (fun c => isspace c = false) s.
Proof.
  unfold digits. intros H. eapply Forall_impl; [|exact H].
  intros c Hc. now apply isspace_digit.
Qed.

Lemma digits_forallb (s : str) : digits s -> forallb is_digit s = true.
Proof.
  unfold digits. intros H. apply forallb_forall. intros c Hc.
  rewrite Forall_forall in H. unfold is_digit. apply in_range_true. now apply H.
Qed.

Lemma int_fold (s : str) (a : Z) :
  fold_left (fun acc c => acc * 10 + digit_val c) s a
  = fold_left (fun n c => 10 * n + (code c - code "0")) s a.
Proof.
  revert a. induction s as [| c s IH]; intros a; cbn [fold_left]; [reflexivity|].
  rewrite <- IH. f_equal. unfold digit_val. change (code "0") with 48. lia.
Qed.

(** [int] reads a string of digits as the number it writes. *)
Lemma int_digits (s : str) : digits s -> s <> [] -> int s = Some (number s).
Proof.
  intros H Hne. unfold int.
  rewrite (strip_no_space s) by now apply digits_no_space.
  destruct s as [| c r]; [contradiction|].
  rewrite (digits_forallb _ H). unfold number. now rewrite int_fold.
Qed.

Lemma index_a_month (b : str) (m : Z) :
  index b a_month = Some m -> 1 <= m <= 12 ->
  b = map lower (nth (Z.to_nat (m - 1)) month_abbreviations []).
Proof.
  unfold a_month. cbn [index].
  repeat (match goal with
          | |- context [str_eqb ?x b] =>
              let Ex := fresh "Ex" in
              destruct (str_eqb x b) eqn:Ex;
              [apply str_eqb_eq in Ex; subst b; intros H Hm; vm_compute in H;
               injection H as <-; first [reflexivity | exfalso; lia]
              | clear Ex]
          end).
  discriminate.
Qed.

Lemma a_month_index (mmm : str) (m : Z) :
  abbreviates mmm m ->
  existsb (str_eqb (map lower mmm)) (tl a_month) = true
  /\ index (map lower mmm) a_month = Some m.
Proof.
  intros [Hm E]. rewrite E. clear E.
  month_cases m; split; vm_compute; reflexivity.
Qed.

(** What [strptime] accepts is written as a date, unless it starts with a
    space. *)
Lemma strptime_written (s : str) (d : datetime) :
  strptime s = Some d ->
  match s with c :: _ => isspace c = false | [] => True end ->
  written 1 s d \/ written 2 s d.
Proof.
  intros H Hs. pose proof (strptime_valid _ _ H) as Hv.
  unfold strptime, re_match in H.
  destruct (re_match_from (re_d s)) as [g|] eqn:E; [|discriminate].
  destruct (g_rest g) eqn:Er; [|discriminate].
  destruct (re_match_from_sound _ _ E) as [s1 [s2 [Hd [Hb Hy]]]].
  apply re_d_shape in Hd. apply re_b_shape in Hb. apply re_Y_shape in Hy.
  destruct Hd as [Es Hd], Hb as [-> [Lb Hb]], Hy as [-> [Ly Hy]].
  rewrite Er, app_nil_r in Es.
  destruct Hd as [[Dd Ld] | [c Ec]].
  2:{ rewrite Es, Ec in Hs. simpl in Hs. discriminate. }
  rewrite (int_digits (g_Y g)) in H
    by (try assumption; intros E0; rewrite E0 in Ly; discriminate).
  destruct (index (map lower (g_b g)) a_month) as [m|] eqn:Em; [|discriminate].
  rewrite (int_digits (g_d g)) in H
    by (try assumption; intros E0; rewrite E0 in Ld; simpl in Ld;
        destruct Ld; discriminate).
  unfold datetime_new in H.
  destruct (check_date_fields _ _ _); [|discriminate].
  injection H as <-.
  assert (W : forall w, List.length (g_d g) = w ->
                        written w s (mkDate (number (g_Y g)) m (number (g_d g)))).
  { intros w Hw. exists (g_d g), (g_b g), (g_Y g).
    pose proof Hv as [[_ [Hm _]] _]. cbn [year month day] in *.
    split; [exact Es|]. split; [exact Hw|]. split; [exact Dd|].
    split; [reflexivity|]. split; [exact Lb|].
    split; [split; [exact Hm | now apply index_a_month]|].
    split; [exact Ly|]. split; [exact Hy|]. split; [reflexivity | exact Hv]. }
  destruct Ld as [Ld | Ld]; [left | right]; now apply W.
Qed.

(** Decides a test on characters from the facts on their codes. *)
Ltac by_codes :=
  lazymatch goal with
  | |- _ && _ = true => apply andb_true_iff; split; by_codes
  | |- _ && _ = false =>
      apply andb_false_iff; first [left; by_codes | right; by_codes]
  | |- Ascii.eqb _ _ = true =>
      rewrite eqb_code; apply Z.eqb_eq; eval_codes; lia
  | |- Ascii.eqb _ _ = false =>
      rewrite eqb_code; apply Z.eqb_neq; eval_codes; lia
  | |- is_digit _ = _ => unfold is_digit; by_codes
  | |- in_range _ _ _ = true => apply in_range_true; eval_codes; lia
  | |- in_range _ _ _ = false => apply in_range_false; eval_codes; lia
  end.

Lemma re_d_one (c1 : ascii) (rest : str) :
  code "1" <= code c1 <= code "9" ->
  match rest with c2 :: _ => is_digit c2 = false | [] => True end ->
  re_d (c1 :: rest) = [([c1], rest)].
Proof.
  intros H1 H2. eval_codes. unfold re_d.
  assert (A : in_range "1" "9" c1 = true) by by_codes.
  destruct rest as [| c2 r]; rewrite A; [reflexivity|].
  code_facts.
  replace (Ascii.eqb c1 "3" && in_range "0" "1" c2) with false
    by (symmetry; by_codes).
  replace (in_range "1" "2" c1 && in_range "0" "9" c2) with false
    by (symmetry; by_codes).
  replace (Ascii.eqb c1 "0" && in_range "1" "9" c2) with false
    by (symmetry; by_codes).
  replace (Ascii.eqb c1 " " && in_range "1" "9" c2) with false
    by (symmetry; by_codes).
  reflexivity.
Qed.

Lemma re_d_two (c1 c2 : ascii) (rest : str) :
  digits [c1; c2] -> 1 <= number [c1; c2] <= 31 ->
  exists post, re_d (c1 :: c2 :: rest) = ([c1; c2], rest) :: post.
Proof.
  intros D N. unfold number in N. cbn [fold_left] in N.
  inversion D as [| ? ? D1 D']; subst. inversion D' as [| ? ? D2 _]; subst.
  clear D D'. eval_codes. unfold re_d.
  destruct (Ascii.eqb c1 "3" && in_range "0" "1" c2) eqn:B1;
    [eexists; reflexivity|].
  destruct (in_range "1" "2" c1 && is_digit c2) eqn:B2;
    [eexists; reflexivity|].
  destruct (Ascii.eqb c1 "0" && in_range "1" "9" c2) eqn:B3;
    [eexists; reflexivity|].
  exfalso. unfold is_digit in *.
  apply andb_false_iff in B1, B2, B3.
  destruct B1 as [B1 | B1], B2 as [B2 | B2], B3 as [B3 | B3];
    code_facts; lia.
Qed.

Lemma abbreviates_letter (m1 : ascii) (r : str) (n : Z) :
  abbreviates (m1 :: r) n -> is_digit m1 = false.
Proof.
  intros [Hn E]. apply lower_letter.
  month_cases n;
    match type of E with
    | _ = ?rhs => let v := eval vm_compute in rhs in change rhs with v in E
    end;
    cbn [map] in E; injection E as -> _; reflexivity.
Qed.

Lemma re_match_from_written (dd mmm yyyy : str) (m : Z)
  (post : list (str * str)) :
  List.length mmm = 3%nat -> abbreviates mmm m ->
  List.length yyyy = 4%nat -> digits yyyy ->
  re_match_from ((dd, mmm ++ yyyy) :: post) = Some (mkGroups dd mmm yyyy []).
Proof.
  intros Lm Hm Ly Dy.
  destruct mmm as [| m1 [| m2 [| m3 [| ? ?]]]]; try discriminate Lm.
  destruct yyyy as [| y1 [| y2 [| y3 [| y4 [| ? ?]]]]]; try discriminate Ly.
  destruct (a_month_index _ _ Hm) as [Hb _].
  cbn [re_match_from app re_b]. rewrite Hb.
  cbn [re_Y]. rewrite (digits_forallb _ Dy). reflexivity.
Qed.

Lemma datetime_new_valid (d : datetime) :
  valid_date d -> datetime_new (year d) (month d) (day d) = Some d.
Proof.
  destruct d as [y m dd]. intros [[Hy [Hm Hd]] Hy']. cbn [year month day] in *.
  unfold datetime_new, check_date_fields, MINYEAR, MAXYEAR.
  rewrite <- month_length_days_in_month by exact Hm.
  rewrite !(proj2 (Z.leb_le _ _)) by lia. reflexivity.
Qed.

(** A string written as a date is accepted by [strptime], as that date. *)
Lemma written_strptime (w : nat) (s : str) (d : datetime) :
  (w = 1 \/ w = 2)%nat -> written w s d -> strptime s = Some d.
Proof.
  intros Hw (dd & mmm & yyyy & -> & Ld & Dd & Nd & Lm & Hm & Ly & Dy & Ny & Hv).
  assert (Hday : 1 <= number dd <= 31).
  { rewrite Nd. destruct Hv as [[_ [_ Hd]] _].
    pose proof (month_length_bounds (year d) (month d)). lia. }
  assert (Hmatch : re_match (dd ++ mmm ++ yyyy)
                   = Some (mkGroups dd mmm yyyy [])).
  { unfold re_match.
    destruct Hw as [-> | ->].
    - destruct dd as [| c1 [| ? ?]]; try discriminate Ld.
      cbn [app]. rewrite re_d_one.
      + now apply (re_match_from_written _ _ _ (month d)).
      + inversion Dd; subst. unfold number in Hday. cbn [fold_left] in Hday.
        eval_codes. lia.
      + destruct mmm as [| m1 r]; [discriminate Lm|].
        cbn [app]. now apply (abbreviates_letter _ _ _ Hm).
    - destruct dd as [| c1 [| c2 [| ? ?]]]; try discriminate Ld.
      destruct (re_d_two c1 c2 (mmm ++ yyyy) Dd Hday) as [post E].
      cbn [app]. rewrite E.
      now apply (re_match_from_written _ _ _ (month d)). }
  unfold strptime. rewrite Hmatch. cbn [g_rest g_Y g_b g_d].
  rewrite (int_digits yyyy) by
    (try assumption; intros E0; rewrite E0 in Ly; discriminate).
  destruct (a_month_index _ _ Hm) as [_ Hi]. rewrite Hi.
  rewrite (int_digits dd) by
    (try assumption; intros E0; rewrite E0 in Ld;
     destruct Hw; subst; discriminate).
  rewrite Nd, Ny. now apply datetime_new_valid.
Qed.

(** On a trimmed string, [strptime] fails exactly when the string is not
    written as a date. *)
Lemma strptime_None_iff (x : str) :
  strptime (strip x) = None <-> ~ date_layout (strip x).
Proof.
  split.
  - intros H [d [W | W]];
      [apply (written_strptime 1) in W | apply (written_strptime 2) in W];
      auto; congruence.
  - intros H. destruct (strptime (strip x)) as [d|] eqn:E; [|reflexivity].
    exfalso. apply H. exists d. apply (strptime_written _ _ E).
    unfold strip at 1. unfold strip in E.
    destruct (lstrip (rstrip x)) as [| c r] eqn:El; [exact I|].
    now apply lstrip_head in El.
Qed.

Lemma written_layout (s : str) (d : datetime) :
  strptime s = Some d ->
  match s with c :: _ => isspace c = false | [] => True end ->
  date_layout s.
Proof.
  intros H Hs. exists d. now apply strptime_written.
Qed.

Lemma clean_date_head (t : str) :
  match clean_date t with c :: _ => isspace c = false | [] => True end.
Proof.
  unfold clean_date, strip.
  destruct (lstrip (rstrip (re_sub_parens t))) as [| c r] eqn:E; [exact I|].
  now apply lstrip_head in E.
Qed.

Lemma clean_date_None_iff (t : str) :
  strptime (clean_date t) = None <-> ~ date_layout (clean_date t).
Proof.
  unfold clean_date. apply strptime_None_iff.
Qed.

(** C9 (amended).  With the separator present and the customer type known,
    whenever the cleaned form of some date token is not written as a date
    of the calendar in the layout of a one- or two-digit day, a three-letter
    month abbreviation in any letter case and a four-digit year, parsing
    fails with the kind [InvalidDateFormat] of the first such token, and
    the message includes that token as it stood before its annotation was
    removed. *)
Theorem parse_input_invalid_date :
  forall input_str customer_str dates_str customer_type,
    map strip (split1 ":" input_str) = [customer_str; dates_str] ->
    CustomerType_of_value customer_str = Some customer_type ->
    Exists (fun t => ~ date_layout (clean_date t))
           (map strip (split "," dates_str)) ->
    exists pre date_str post msg,
      map strip (split "," dates_str) = pre ++ date_str :: post
      /\ Forall (fun t => date_layout (clean_date t)) pre
      /\ ~ date_layout (clean_date date_str)
      /\ fails_with input_str (InvalidDateFormat date_str)
      /\ parse_input input_str = Raise (ValueError msg)
      /\ includes msg date_str.
Proof.
  intros input_str customer_str dates_str customer_type Hparts Hct Hex.
  assert (Hex' : Exists (fun t => strptime (clean_date t) = None)
                        (map strip (split "," dates_str))).
  { eapply Exists_impl; [|exact Hex]. intros t Ht. now apply clean_date_None_iff. }
  destruct (Exists_first_failure _ Hex') as [pre [date_str [post [E [Hpre Hbad]]]]].
  assert (Hf : fails_with input_str (InvalidDateFormat date_str)).
  { unfold fails_with, parse_input.
    rewrite (parse_input_body_dates _ _ _ _ Hparts Hct), E.
    rewrite (parse_dates_fails _ _ _ _ Hpre Hbad). reflexivity. }
  exists pre, date_str, post, (msg_failed input_str (msg_invalid_date date_str)).
  split; [exact E|]. split.
  { eapply Forall_impl; [|exact Hpre]. intros t Ht.
    destruct (strptime (clean_date t)) as [d|] eqn:Et; [|congruence].
    apply (written_layout _ d Et). apply clean_date_head. }
  split; [now apply clean_date_None_iff|].
  split; [exact Hf|]. split; [exact Hf|].
  exists (lit "Failed to parse input '" ++ input_str ++ lit "': "
          ++ lit "Invalid date format: "),
         (lit ". Expected format: DDMmmYYYY").
  unfold msg_failed, msg_invalid_date. rewrite <- !app_assoc. reflexivity.
Qed.

Lemma parse_input_invalid_date_witness :
  Exists (fun t => ~ date_layout (clean_date t))
         (map strip (split "," (lit "1Mar2009(sun), 2009-03-16(mon)")))
  /\ exists pre date_str post msg,
       map strip (split "," (lit "1Mar2009(sun), 2009-03-16(mon)"))
       = pre ++ date_str :: post
       /\ Forall (fun t => date_layout (clean_date t)) pre
       /\ ~ date_layout (clean_date date_str)
       /\ fails_with (lit "Regular: 1Mar2009(sun), 2009-03-16(mon)")
                     (InvalidDateFormat date_str)
       /\ parse_input (lit "Regular: 1Mar2009(sun), 2009-03-16(mon)")
          = Raise (ValueError msg)
       /\ includes msg date_str.
Proof.
  assert (Hparts : map strip (split1 ":"
                     (lit "Regular: 1Mar2009(sun), 2009-03-16(mon)"))
                   = [lit "Regular"; lit "1Mar2009(sun), 2009-03-16(mon)"])
    by (vm_compute; reflexivity).
  assert (Hct : CustomerType_of_value (lit "Regular") = Some REGULAR)
    by (vm_compute; reflexivity).
  assert (H : Exists (fun t => ~ date_layout (clean_date t))
                (map strip (split "," (lit "1Mar2009(sun), 2009-03-16(mon)")))).
  { replace (map strip (split "," (lit "1Mar2009(sun), 2009-03-16(mon)")))
      with [lit "1Mar2009(sun)"; lit "2009-03-16(mon)"]
      by (vm_compute; reflexivity).
    apply Exists_cons_tl, Exists_cons_hd.
    apply clean_date_None_iff. vm_compute. reflexivity. }
  split; [exact H|].
  exact (parse_input_invalid_date _ _ _ REGULAR Hparts Hct H).
Defined.

(** C9 (as stated) fails.  The token [1Mar2009] is not in the layout with
    a two-digit day, yet it is read as 1 March 2009: the request
    [Regular: 1Mar2009] parses, and fails with no kind of error. *)
Lemma one_digit_day_accepted :
  map strip (split "," (lit "1Mar2009")) = [lit "1Mar2009"]
  /\ clean_date (lit "1Mar2009") = lit "1Mar2009"
  /\ ~ two_digit_day_layout (clean_date (lit "1Mar2009"))
  /\ date_layout (clean_date (lit "1Mar2009"))
  /\ parse_input (lit "Regular: 1Mar2009") = Ok (REGULAR, [mkDate 2009 3 1])
  /\ (forall k, ~ fails_with (lit "Regular: 1Mar2009") k).
Proof.
  split; [reflexivity|]. split; [reflexivity|]. split.
  { intros [d (dd & mmm & yyyy & E & Ld & _ & _ & Lm & _ & Ly & _)].
    apply (f_equal (@List.length ascii)) in E.
    rewrite !length_app, Ld, Lm, Ly in E. vm_compute in E. discriminate E. }
  split.
  { apply (written_layout _ (mkDate 2009 3 1)); [|apply clean_date_head].
    vm_compute. reflexivity. }
  assert (P : parse_input (lit "Regular: 1Mar2009")
              = Ok (REGULAR, [mkDate 2009 3 1])) by (vm_compute; reflexivity).
  split; [exact P|].
  intros k Hk. unfold fails_with in Hk. rewrite P in Hk. discriminate Hk.
Qed.

(** * Further properties *)

(** ** The cost of a stay *)

(** X1.  The cost of a stay is additive: the cost of two lists of dates put
    end to end is the sum of their costs. *)
Theorem calculate_total_cost_app :
  forall hotel customer_type dates1 dates2,
    calculate_total_cost hotel customer_type (dates1 ++ dates2)
    = calculate_total_cost hotel customer_type dates1
      + calculate_total_cost hotel customer_type dates2.
Proof.
  intros hotel customer_type dates1 dates2.
  induction dates1 as [| d ds IH].
  - reflexivity.
  - change ((d :: ds) ++ dates2) with (d :: (ds ++ dates2)).
    rewrite !calculate_total_cost_cons, IH. lia.
Qed.

(** X2.  The order of the dates does not matter to the cost: two lists with
    the same dates, each as often, cost the same. *)
Theorem calculate_total_cost_permutation :
  forall hotel customer_type dates1 dates2,
    Permutation dates1 dates2 ->
    calculate_total_cost hotel customer_type dates1
    = calculate_total_cost hotel customer_type dates2.
Proof.
  intros hotel customer_type dates1 dates2 H.
  induction H as [| d l l' _ IH | d d' l | l l' l'' _ IH1 _ IH2].
  - reflexivity.
  - rewrite !calculate_total_cost_cons. lia.
  - rewrite !calculate_total_cost_cons. lia.
  - congruence.
Qed.

Lemma calculate_total_cost_permutation_witness :
  Permutation [mkDate 2009 3 20; mkDate 2009 3 21] [mkDate 2009 3 21; mkDate 2009 3 20]
  /\ calculate_total_cost (mkHotel (lit "Lakewood") 3 110 80 90 80) REGULAR
       [mkDate 2009 3 20; mkDate 2009 3 21]
     = calculate_total_cost (mkHotel (lit "Lakewood") 3 110 80 90 80) REGULAR
         [mkDate 2009 3 21; mkDate 2009 3 20].
Proof.
  assert (H : Permutation [mkDate 2009 3 20; mkDate 2009 3 21]
                          [mkDate 2009 3 21; mkDate 2009 3 20])
    by apply perm_swap.
  split; [exact H|].
  exact (calculate_total_cost_permutation _ REGULAR _ _ H).
Defined.

Lemma count_day_type_cons (day_type : DayType) (d : datetime) (ds : list datetime) :
  count_day_type day_type (d :: ds)
  = (if DayType_eqb (get_day_type d) day_type then 1 else 0)
    + count_day_type day_type ds.
Proof.
  unfold count_day_type. cbn [filter].
  destruct (DayType_eqb (get_day_type d) day_type); cbn [List.length]; lia.
Qed.

Lemma count_day_type_total (dates : list datetime) :
  count_day_type WEEKDAY dates + count_day_type WEEKEND dates
  = Z.of_nat (List.length dates).
Proof.
  induction dates as [| d ds IH]; [reflexivity|].
  rewrite !count_day_type_cons. cbn [List.length].
  destruct (get_day_type d); cbn [DayType_eqb]; lia.
Qed.

Lemma count_day_type_nonneg (day_type : DayType) (dates : list datetime) :
  0 <= count_day_type day_type dates.
Proof. unfold count_day_type. lia. Qed.

Lemma calculate_total_cost_by_counts hotel customer_type dates :
  calculate_total_cost hotel customer_type dates
  = count_day_type WEEKDAY dates * get_rate hotel customer_type WEEKDAY
    + count_day_type WEEKEND dates * get_rate hotel customer_type WEEKEND.
Proof.
  induction dates as [| d ds IH]; [reflexivity|].
  rewrite calculate_total_cost_cons, !count_day_type_cons, IH.
  destruct (get_day_type d); cbn [DayType_eqb]; lia.
Qed.

(** X3.  The cost depends on the dates only through the number of weekdays
    and the number of weekend days among them: it is the first times the
    weekday rate plus the second times the weekend rate, the two numbers
    adding up to the number of dates. *)
Theorem calculate_total_cost_counts :
  forall hotel customer_type dates,
    calculate_total_cost hotel customer_type dates
    = count_day_type WEEKDAY dates * get_rate hotel customer_type WEEKDAY
      + count_day_type WEEKEND dates * get_rate hotel customer_type WEEKEND
    /\ count_day_type WEEKDAY dates + count_day_type WEEKEND dates
       = Z.of_nat (List.length dates)
    /\ 0 <= count_day_type WEEKDAY dates
    /\ 0 <= count_day_type WEEKEND dates.
Proof.
  intros hotel customer_type dates.
  split; [apply calculate_total_cost_by_counts|].
  split; [apply count_day_type_total|].
  split; apply count_day_type_nonneg.
Qed.

(** X4.  The cost lies between the number of dates times the lower and times
    the higher of the hotel's two rates for the customer type. *)
Theorem calculate_total_cost_bounds :
  forall hotel customer_type dates,
    let n := Z.of_nat (List.length dates) in
    let lo := Z.min (get_rate hotel customer_type WEEKDAY)
                    (get_rate hotel customer_type WEEKEND) in
    let hi := Z.max (get_rate hotel customer_type WEEKDAY)
                    (get_rate hotel customer_type WEEKEND) in
    n * lo <= calculate_total_cost hotel customer_type dates <= n * hi.
Proof.
  intros hotel customer_type dates n lo hi. subst n lo hi.
  induction dates as [| d ds IH];
    [change (calculate_total_cost hotel customer_type []) with 0;
     cbn [List.length]; lia|].
  rewrite calculate_total_cost_cons.
  change (List.length (d :: ds)) with (S (List.length ds)).
  rewrite Nat2Z.inj_succ.
  destruct (get_day_type d); lia.
Qed.

(** X5.  A hotel whose rewards rates do not exceed its regular rates never
    charges a rewards customer more than a regular customer for the same
    dates. *)
Theorem calculate_total_cost_rewards_le_regular :
  forall hotel dates,
    weekday_rewards hotel <= weekday_regular hotel ->
    weekend_rewards hotel <= weekend_regular hotel ->
    calculate_total_cost hotel REWARDS dates
    <= calculate_total_cost hotel REGULAR dates.
Proof.
  intros hotel dates Hwd Hwe.
  induction dates as [| d ds IH]; [reflexivity|].
  rewrite !calculate_total_cost_cons.
  destruct (get_day_type d); simpl; lia.
Qed.

Lemma calculate_total_cost_rewards_le_regular_witness :
  Forall (fun hotel =>
            weekday_rewards hotel <= weekday_regular hotel
            /\ weekend_rewards hotel <= weekend_regular hotel
            /\ calculate_total_cost hotel REWARDS [mkDate 2009 3 20; mkDate 2009 3 21]
               <= calculate_total_cost hotel REGULAR [mkDate 2009 3 20; mkDate 2009 3 21])
         (hotels init).
Proof.
  repeat constructor; simpl; try lia;
    apply calculate_total_cost_rewards_le_regular; simpl; lia.
Defined.

(** ** The outcomes of parsing *)

(** Two messages that differ in their literal heads. *)
Ltac messages_differ H :=
  unfold msg_invalid_customer, msg_invalid_date, msg_no_separator,
    msg_no_dates, lit in H;
  cbn [list_ascii_of_string app exn_str] in H;
  discriminate H.

Lemma str_eqb_refl (a : str) : str_eqb a a = true.
Proof.
  induction a as [| c r IH]; [reflexivity|].
  simpl. now rewrite Ascii.eqb_refl.
Qed.

Lemma CustomerType_of_value_Some (s : str) (c : CustomerType) :
  CustomerType_of_value s = Some c <-> s = CustomerType_value c.
Proof.
  unfold CustomerType_of_value. split.
  - destruct (str_eqb s (lit "Regular")) eqn:E1.
    + intros H. injection H as <-. now apply str_eqb_eq in E1.
    + destruct (str_eqb s (lit "Rewards")) eqn:E2; [|discriminate].
      intros H. injection H as <-. now apply str_eqb_eq in E2.
  - intros ->. destruct c; reflexivity.
Qed.

Lemma CustomerType_of_value_None (s : str) :
  CustomerType_of_value s = None <->
  s <> lit "Regular" /\ s <> lit "Rewards".
Proof.
  unfold CustomerType_of_value. split.
  - destruct (str_eqb s (lit "Regular")) eqn:E1; [discriminate|].
    destruct (str_eqb s (lit "Rewards")) eqn:E2; [discriminate|].
    intros _. split; intros ->; rewrite str_eqb_refl in *; discriminate.
  - intros [H1 H2].
    destruct (str_eqb s (lit "Regular")) eqn:E1;
      [apply str_eqb_eq in E1; contradiction|].
    destruct (str_eqb s (lit "Rewards")) eqn:E2;
      [apply str_eqb_eq in E2; contradiction|].
    reflexivity.
Qed.

Lemma split1_no_sep (sep : ascii) (s : str) :
  occurs sep s = false -> split1 sep s = [s].
Proof.
  induction s as [| c r IH]; intros H; [reflexivity|].
  rewrite occurs_cons in H. apply orb_false_iff in H. destruct H as [Hc Hr].
  simpl. rewrite Ascii.eqb_sym, Hc, (IH Hr). reflexivity.
Qed.

Lemma occurs_split (sep : ascii) (s : str) :
  occurs sep s = true ->
  exists a b, s = a ++ sep :: b /\ occurs sep a = false.
Proof.
  induction s as [| c r IH]; intros H; [discriminate|].
  rewrite occurs_cons in H.
  destruct (Ascii.eqb_spec sep c) as [<- | Hne].
  - exists [], r. split; reflexivity.
  - simpl in H. destruct (IH H) as [a [b [-> Ha]]].
    exists (c :: a), b. split; [reflexivity|].
    rewrite occurs_cons, Ha.
    destruct (Ascii.eqb_spec sep c); [contradiction | reflexivity].
Qed.

Lemma parse_dates_raise date_strings dates e :
  parse_dates date_strings dates = Raise e ->
  exists date_str,
    In date_str date_strings /\ strptime (clean_date date_str) = None
    /\ e = ValueError (msg_invalid_date date_str).
Proof.
  revert dates. induction date_strings as [| t ts IH]; intros dates H.
  - discriminate.
  - simpl in H. destruct (strptime (strip (re_sub_parens t))) as [d|] eqn:E.
    + destruct (IH _ H) as [x [Hin Hx]]. exists x. split; [now right | exact Hx].
    + injection H as <-. exists t. repeat split; [now left | exact E].
Qed.

Lemma parse_dates_all (date_strings : list str) (ds dates : list datetime) :
  Forall2 (fun t d => strptime (clean_date t) = Some d) date_strings ds ->
  parse_dates date_strings dates = Ok (dates ++ ds).
Proof.
  intros H. revert dates. induction H as [| t d ts ds Ht _ IH]; intros dates.
  - simpl. now rewrite app_nil_r.
  - simpl. unfold clean_date in Ht. rewrite Ht, IH, <- app_assoc. reflexivity.
Qed.

Lemma Forall2_map_l {A B C : Type} (f : A -> B) (R : B -> C -> Prop) l l' :
  Forall2 R (map f l) l' <-> Forall2 (fun a c => R (f a) c) l l'.
Proof.
  revert l'. induction l as [| a l IH]; intros l'; simpl.
  - split; intros H; inversion H; constructor.
  - split; intros H; inversion H; subst; constructor; try assumption;
      now apply IH.
Qed.

(** X6.  A request without a colon fails as a malformed request, whatever
    else it holds, and only such a request does. *)
Theorem parse_input_malformed_iff :
  forall input_str,
    fails_with input_str MalformedRequest <-> occurs ":" input_str = false.
Proof.
  intros input_str. unfold fails_with, parse_input. split.
  - destruct (occurs ":" input_str) eqn:E; [|reflexivity].
    destruct (occurs_split _ _ E) as [tier [seg [-> Ht]]].
    rewrite (parse_input_body_request tier seg Ht).
    destruct (CustomerType_of_value (strip tier)) as [ct|].
    + destruct (parse_dates _ []) as [ds | e] eqn:Ed.
      * simpl. destruct ds; [|discriminate].
        intros H. injection H as H. apply app_inv_head in H.
        messages_differ H.
      * simpl. apply parse_dates_raise in Ed.
        destruct Ed as [t [_ [_ ->]]]. intros H.
        injection H as H. apply app_inv_head in H.
        messages_differ H.
    + intros H. injection H as H. apply app_inv_head in H.
      messages_differ H.
  - intros H. unfold parse_input_body.
    rewrite (split1_no_sep _ _ H). reflexivity.
Qed.

(** X7.  With a colon present, a tier that, trimmed, is neither [Regular]
    nor [Rewards] in exactly that spelling fails as an unknown customer type
    naming the trimmed tier, before any date is looked at. *)
Theorem parse_input_unknown_tier :
  forall tier segment,
    occurs ":" tier = false ->
    strip tier <> lit "Regular" ->
    strip tier <> lit "Rewards" ->
    fails_with (tier ++ ":"%char :: segment) (UnknownCustomerTier (strip tier)).
Proof.
  intros tier segment Ht H1 H2. unfold fails_with, parse_input.
  rewrite (parse_input_body_request tier segment Ht).
  rewrite (proj2 (CustomerType_of_value_None (strip tier)) (conj H1 H2)).
  reflexivity.
Qed.

Lemma parse_input_unknown_tier_witness :
  strip (lit "regular") <> lit "Regular"
  /\ fails_with (lit "regular: 16Mar2009, not a date")
                (UnknownCustomerTier (lit "regular")).
Proof.
  assert (H1 : strip (lit "regular") <> lit "Regular") by discriminate.
  assert (H2 : strip (lit "regular") <> lit "Rewards") by discriminate.
  split; [exact H1|].
  exact (parse_input_unknown_tier (lit "regular") (lit " 16Mar2009, not a date")
           eq_refl H1 H2).
Defined.

Lemma parse_input_success_cases :
  forall tier segment customer_type dates,
    occurs ":" tier = false ->
    (parse_input (tier ++ ":"%char :: segment) = Ok (customer_type, dates)
     <-> strip tier = CustomerType_value customer_type
         /\ Forall2 (fun t d => strptime (clean_date (strip t)) = Some d)
                    (split "," segment) dates).
Proof.
  intros tier segment customer_type dates Ht. unfold parse_input.
  rewrite (parse_input_body_request tier segment Ht).
  rewrite <- CustomerType_of_value_Some.
  rewrite <- (Forall2_map_l strip (fun t d => strptime (clean_date t) = Some d)).
  split.
  - destruct (CustomerType_of_value (strip tier)) as [ct|]; [|discriminate].
    destruct (parse_dates _ []) as [ds | e] eqn:E; [|discriminate].
    simpl. destruct ds as [| d0 ds]; [discriminate|].
    intros H. injection H as <- <-. split; [reflexivity|].
    apply parse_dates_ok in E. destruct E as [ds' [E [_ Hall]]].
    simpl in E. now subst ds'.
  - intros [-> Hall]. rewrite (parse_dates_all _ _ [] Hall). simpl.
    destruct dates as [| d0 ds]; [|reflexivity].
    inversion Hall as [E |]. symmetry in E. apply map_eq_nil in E.
    now apply split_nonempty in E.
Qed.

(** X8.  What parsing returns.  A request [tier ":" segment] parses to a
    customer type and dates exactly when the trimmed tier is the value of
    that customer type and the comma-separated pieces of the segment, each
    trimmed and cleaned of its annotations, parse one by one to those dates:
    one date per piece, in the order of the request, repeats kept. *)
Theorem parse_input_success_iff :
  forall tier segment customer_type dates,
    occurs ":" tier = false ->
    (parse_input (tier ++ ":"%char :: segment) = Ok (customer_type, dates)
     <-> strip tier = CustomerType_value customer_type
         /\ Forall2 (fun t d => strptime (clean_date (strip t)) = Some d)
                    (split "," segment) dates).
Proof.
  intros tier segment customer_type dates Ht.
  now apply parse_input_success_cases.
Qed.

Lemma parse_input_success_iff_witness :
  occurs ":" (lit " Rewards ") = false
  /\ parse_input (lit " Rewards :21Mar2009 ,(sat)21Mar2009, 16Mar2009(x)")
     = Ok (REWARDS, [mkDate 2009 3 21; mkDate 2009 3 21; mkDate 2009 3 16]).
Proof.
  split; [vm_compute; reflexivity|].
  apply (proj2 (parse_input_success_iff (lit " Rewards ")
                  (lit "21Mar2009 ,(sat)21Mar2009, 16Mar2009(x)") REWARDS
                  [mkDate 2009 3 21; mkDate 2009 3 21; mkDate 2009 3 16]
                  eq_refl)).
  split; [vm_compute; reflexivity|].
  replace (split "," (lit "21Mar2009 ,(sat)21Mar2009, 16Mar2009(x)"))
    with [lit "21Mar2009 "; lit "(sat)21Mar2009"; lit " 16Mar2009(x)"]
    by (vm_compute; reflexivity).
  repeat (constructor; [vm_compute; reflexivity|]). constructor.
Defined.

(** X9.  Parsing ends in one of four ways and in no other: with a customer
    type and at least one date, each a valid date of the calendar; as a
    malformed request; as an unknown customer type; or as an invalid date
    format naming one of the trimmed pieces of the date list.  The error for
    an empty date list is never raised. *)
Theorem parse_input_outcomes :
  forall input_str,
    ((exists customer_type dates,
         parse_input input_str = Ok (customer_type, dates)
         /\ dates <> [] /\ Forall valid_date dates)
     \/ fails_with input_str MalformedRequest
     \/ (exists customer_str, fails_with input_str (UnknownCustomerTier customer_str))
     \/ (exists date_str, fails_with input_str (InvalidDateFormat date_str)))
    /\ ~ fails_with input_str EmptyDateList.
Proof.
  intros input_str. split.
  - destruct (parse_input input_str) as [[ct dates] | e] eqn:E.
    + left. exists ct, dates. split; [reflexivity|].
      now apply parse_input_dates_valid in E.
    + right. unfold fails_with. rewrite E.
      unfold parse_input in E.
      destruct (parse_input_body input_str) as [r | e'] eqn:Eb; [discriminate|].
      injection E as <-.
      unfold parse_input_body in Eb.
      destruct (map strip (split1 ":" input_str)) as [| c [| d [| x p]]];
        try (injection Eb as <-; left; reflexivity).
      destruct (CustomerType_of_value c).
      * destruct (parse_dates (map strip (split "," d)) []) as [ds | e2] eqn:Ed.
        -- simpl in Eb. destruct ds as [| d0 ds]; [|discriminate].
           exfalso. apply parse_dates_ok in Ed.
           destruct Ed as [ds' [E1 [E2 _]]].
           symmetry in E1. apply app_eq_nil in E1. destruct E1 as [_ ->].
           rewrite length_map in E2. simpl in E2.
           destruct (split "," d) eqn:Es; [|discriminate].
           now apply split_nonempty in Es.
        -- simpl in Eb. injection Eb as <-.
           apply parse_dates_raise in Ed. destruct Ed as [t [_ [_ ->]]].
           right. right. exists t. reflexivity.
      * injection Eb as <-. right. left. exists c. reflexivity.
  - unfold fails_with, parse_input.
    destruct (parse_input_body input_str) as [r | e] eqn:Eb; [discriminate|].
    intros H. injection H as H. apply app_inv_head in H.
    injection H as H.
    destruct e as [msg |]; simpl in H.
    + subst msg. now apply parse_input_body_never_no_dates in Eb.
    + messages_differ H.
Qed.

(** ** White space and annotations *)

Lemma re_sub_no_open (w : str) :
  occurs "(" w = false -> re_sub_scan false w = w.
Proof.
  induction w as [| c r IH]; intros H; [reflexivity|].
  rewrite occurs_cons in H. apply orb_false_iff in H. destruct H as [Hc Hr].
  cbn [re_sub_scan]. rewrite Ascii.eqb_sym, Hc. cbn [andb].
  now rewrite (IH Hr).
Qed.

(** Text without parentheses after the scanned string comes out as it is. *)
Lemma re_sub_scan_app_plain (p w : str) (inside : bool) :
  occurs "(" w = false -> occurs ")" w = false ->
  (inside = true -> has_close p = true) ->
  re_sub_scan inside (p ++ w) = re_sub_scan inside p ++ w.
Proof.
  intros Ho Hc. revert inside. induction p as [| c r IH]; intros inside Hin.
  - destruct inside; [specialize (Hin eq_refl); discriminate|].
    now apply re_sub_no_open.
  - change ((c :: r) ++ w) with (c :: (r ++ w)).
    destruct inside; cbn [re_sub_scan].
    + specialize (Hin eq_refl).
      change (has_close (c :: r)) with (occurs ")" (c :: r)) in Hin.
      rewrite occurs_cons in Hin.
      destruct (Ascii.eqb c ")") eqn:Ec.
      * apply IH. discriminate.
      * apply IH. intros _. rewrite Ascii.eqb_sym, Ec in Hin. exact Hin.
    + assert (Hcl : has_close (r ++ w) = has_close r).
      { unfold has_close. rewrite existsb_app.
        change (existsb (Ascii.eqb ")") w) with (occurs ")" w).
        rewrite Hc. apply orb_false_r. }
      rewrite Hcl.
      destruct (Ascii.eqb c "(" && has_close r) eqn:E.
      * apply IH. intros _. now apply andb_true_iff in E.
      * change ((c :: re_sub_scan false r) ++ w)
          with (c :: (re_sub_scan false r ++ w)).
        f_equal. apply IH. discriminate.
Qed.

(** Trimming a token before its annotations are removed changes nothing in
    its cleaned form. *)
Lemma clean_date_strip (y : str) : clean_date (strip y) = clean_date y.
Proof.
  destruct (strip_decomp y) as [w1 [w2 [H1 [H2 E]]]].
  remember (strip y) as p eqn:Ep. clear Ep. subst y.
  unfold clean_date, re_sub_parens.
  rewrite (re_sub_scan_app w1 (p ++ w2) false).
  - rewrite (re_sub_blank w1 H1).
    rewrite (re_sub_scan_app_plain p w2 false);
      try (now apply occurs_blank); try discriminate.
    rewrite strip_blank_l by exact H1.
    now rewrite strip_blank_r by exact H2.
  - discriminate.
  - rewrite (re_sub_blank w1 H1). now apply occurs_blank.
Qed.

Lemma re_sub_annotation_inside (a x b : str) :
  occurs ")" x = false ->
  occurs "(" (re_sub_parens a) = false ->
  re_sub_parens (a ++ annotation x ++ b) = re_sub_parens (a ++ b).
Proof.
  intros Hx Ha. unfold re_sub_parens in *.
  rewrite (re_sub_scan_app a (annotation x ++ b) false);
    [|discriminate | exact Ha].
  rewrite (re_sub_scan_app a b false); [|discriminate | exact Ha].
  f_equal.
  rewrite (re_sub_scan_app (annotation x) b false); [|discriminate|].
  - change (re_sub_scan false (annotation x)) with (re_sub_parens (annotation x)).
    now rewrite (re_sub_annotation x Hx).
  - change (re_sub_scan false (annotation x)) with (re_sub_parens (annotation x)).
    now rewrite (re_sub_annotation x Hx).
Qed.

(** X10.  White space around the tier and around each piece of the date
    list does not count: two requests whose tiers agree once trimmed and
    whose comma-separated pieces agree, one by one, once trimmed, parse to
    the same result or fail with the same kind and text. *)
Theorem parse_input_whitespace :
  forall tier1 segment1 tier2 segment2,
    occurs ":" tier1 = false ->
    occurs ":" tier2 = false ->
    strip tier1 = strip tier2 ->
    map strip (split "," segment1) = map strip (split "," segment2) ->
    (forall r, parse_input (tier1 ++ ":"%char :: segment1) = Ok r
               <-> parse_input (tier2 ++ ":"%char :: segment2) = Ok r)
    /\ (forall k, fails_with (tier1 ++ ":"%char :: segment1) k
                  <-> fails_with (tier2 ++ ":"%char :: segment2) k).
Proof.
  intros tier1 segment1 tier2 segment2 H1 H2 Ht Hs.
  assert (E : parse_input_body (tier1 ++ ":"%char :: segment1)
              = parse_input_body (tier2 ++ ":"%char :: segment2)).
  { rewrite (parse_input_body_request tier1 segment1 H1).
    rewrite (parse_input_body_request tier2 segment2 H2).
    now rewrite Ht, Hs. }
  unfold fails_with, parse_input. rewrite E.
  split.
  - intros r.
    destruct (parse_input_body (tier2 ++ ":"%char :: segment2)) as [r' | e];
      [reflexivity | split; discriminate].
  - intros k.
    destruct (parse_input_body (tier2 ++ ":"%char :: segment2)) as [r' | e];
      [split; discriminate|].
    split; intros H; injection H as H; apply app_inv_head in H;
      injection H as H; now rewrite H.
Qed.

Lemma parse_input_whitespace_witness :
  map strip (split "," (lit " 16Mar2009 ,21Mar2009(sat) "))
  = map strip (split "," (lit "16Mar2009,21Mar2009(sat)"))
  /\ parse_input (lit "Regular:16Mar2009,21Mar2009(sat)")
     = Ok (REGULAR, [mkDate 2009 3 16; mkDate 2009 3 21])
  /\ parse_input (lit "  Regular : 16Mar2009 ,21Mar2009(sat) ")
     = Ok (REGULAR, [mkDate 2009 3 16; mkDate 2009 3 21]).
Proof.
  assert (Hs : map strip (split "," (lit " 16Mar2009 ,21Mar2009(sat) "))
               = map strip (split "," (lit "16Mar2009,21Mar2009(sat)")))
    by reflexivity.
  assert (Hp : parse_input (lit "Regular:16Mar2009,21Mar2009(sat)")
               = Ok (REGULAR, [mkDate 2009 3 16; mkDate 2009 3 21]))
    by (vm_compute; reflexivity).
  split; [exact Hs|]. split; [exact Hp|].
  apply (proj1 (parse_input_whitespace (lit "  Regular ")
                  (lit " 16Mar2009 ,21Mar2009(sat) ")
                  (lit "Regular") (lit "16Mar2009,21Mar2009(sat)")
                  eq_refl eq_refl eq_refl Hs)).
  exact Hp.
Defined.

Lemma parse_input_ok_congr (s1 s2 : str) :
  parse_input_body s1 = parse_input_body s2
  \/ (exists e1 e2, parse_input_body s1 = Raise e1
                    /\ parse_input_body s2 = Raise e2) ->
  forall r, parse_input s1 = Ok r <-> parse_input s2 = Ok r.
Proof.
  intros [E | [e1 [e2 [E1 E2]]]] r; unfold parse_input.
  - rewrite E. destruct (parse_input_body s2); [reflexivity | split; discriminate].
  - rewrite E1, E2. split; discriminate.
Qed.

(** X11.  An annotation is removed wherever it stands in a token, not only
    at its end: with no unclosed parenthesis before it, a parenthesized text
    free of closing parentheses and commas put anywhere into a token of the
    date list leaves the result of a request that parses unchanged, and a
    request parses with it exactly when it parses without. *)
Theorem annotation_anywhere :
  forall tier before a x b after,
    occurs ":" tier = false ->
    token_start before ->
    occurs "," a = false ->
    occurs "," b = false ->
    token_end after ->
    occurs ")" x = false ->
    occurs "," x = false ->
    occurs "(" (re_sub_parens a) = false ->
    forall r,
      parse_input (request_around tier before (a ++ b) after) = Ok r
      <-> parse_input (request_around tier before (a ++ annotation x ++ b) after)
          = Ok r.
Proof.
  intros tier before a x b after Htier Hb Ha Hbb Hafter Hx Hxc Hopen.
  apply parse_input_ok_congr. unfold request_around.
  rewrite !(parse_input_body_request tier) by exact Htier.
  destruct (CustomerType_of_value (strip tier)) as [ct|]; [|left; reflexivity].
  destruct (split_around before a after Hb Ha Hafter) as [A [B Hsplit]].
  rewrite (Hsplit b Hbb).
  assert (Hxb : occurs "," (annotation x ++ b) = false).
  { rewrite occurs_app, Hbb, orb_false_r. now apply occurs_annotation. }
  rewrite (Hsplit (annotation x ++ b) Hxb).
  rewrite !map_app. cbn [map].
  assert (Hclean : clean_date (strip (a ++ annotation x ++ b))
                   = clean_date (strip (a ++ b))).
  { rewrite !clean_date_strip. unfold clean_date.
    now rewrite re_sub_annotation_inside. }
  destruct (parse_dates_token (map strip A) (map strip B)
              (strip (a ++ b)) (strip (a ++ annotation x ++ b)) [] Hclean)
    as [E | [E1 E2]].
  - left. apply bind_congr. symmetry. exact E.
  - right. eexists. eexists. split; apply bind_raise; eassumption.
Qed.

Lemma annotation_anywhere_witness :
  occurs "(" (re_sub_parens (lit " ")) = false
  /\ parse_input (lit "Regular: (mon)16Mar2009")
     = Ok (REGULAR, [mkDate 2009 3 16]).
Proof.
  split; [reflexivity|].
  apply (proj1 (annotation_anywhere (lit "Regular") [] (lit " ") (lit "mon")
                  (lit "16Mar2009") []
                  eq_refl (or_introl eq_refl) eq_refl eq_refl
                  (or_introl eq_refl) eq_refl eq_refl eq_refl _)).
  vm_compute. reflexivity.
Defined.

(** ** Weeks *)

Lemma weekday_tomorrow (d : datetime) :
  wf_date d -> weekday (tomorrow d) = (weekday d + 1) mod 7.
Proof.
  intros H. unfold weekday. rewrite (toordinal_tomorrow d H).
  Z.div_mod_to_equations. lia.
Qed.

Lemma weekday_range (d : datetime) : 0 <= weekday d < 7.
Proof. unfold weekday. apply Z.mod_pos_bound. lia. Qed.

Lemma wf_iter_tomorrow (n : nat) (d : datetime) :
  wf_date d -> wf_date (Nat.iter n tomorrow d).
Proof.
  intros H. induction n as [| n IH]; [exact H|].
  change (Nat.iter (S n) tomorrow d) with (tomorrow (Nat.iter n tomorrow d)).
  now apply wf_tomorrow.
Qed.

Lemma weekday_iter_tomorrow (n : nat) (d : datetime) :
  wf_date d ->
  weekday (Nat.iter n tomorrow d) = (weekday d + Z.of_nat n) mod 7.
Proof.
  intros H. induction n as [| n IH].
  - simpl. rewrite Z.add_0_r. symmetry. apply Z.mod_small, weekday_range.
  - change (Nat.iter (S n) tomorrow d) with (tomorrow (Nat.iter n tomorrow d)).
    rewrite weekday_tomorrow by now apply wf_iter_tomorrow.
    rewrite IH, Nat2Z.inj_succ. Z.div_mod_to_equations. lia.
Qed.

Lemma days_from_iter (n : nat) (d : datetime) :
  days_from d n = map (fun k => Nat.iter k tomorrow d) (List.seq 0 n).
Proof.
  revert d. induction n as [| n IH]; intros d; [reflexivity|].
  cbn [days_from List.seq map]. f_equal.
  rewrite IH, <- seq_shift, map_map.
  apply map_ext. intros k. simpl. clear.
  induction k as [| k IHk]; [reflexivity|]. simpl. now rewrite IHk.
Qed.

Lemma count_day_type_by_weekday (day_type : DayType) (dates : list datetime) :
  count_day_type day_type dates
  = Z.of_nat
      (List.length
         (filter (fun w => DayType_eqb (if 5 <=? w then WEEKEND else WEEKDAY)
                                       day_type)
                 (map weekday dates))).
Proof.
  unfold count_day_type. f_equal.
  induction dates as [| d ds IH]; [reflexivity|].
  cbn [filter map]. unfold get_day_type at 1.
  destruct (DayType_eqb _ day_type); cbn [List.length]; now rewrite IH.
Qed.

(** X12.  A week holds two weekend days: of any seven consecutive days of
    the calendar two are classified [WEEKEND] and five [WEEKDAY], and the
    day a week later is classified as the day itself. *)
Theorem get_day_type_week :
  forall d,
    wf_date d ->
    count_day_type WEEKEND (days_from d 7) = 2
    /\ count_day_type WEEKDAY (days_from d 7) = 5
    /\ get_day_type (Nat.iter 7 tomorrow d) = get_day_type d.
Proof.
  intros d H.
  assert (Hw : map weekday (days_from d 7)
               = map (fun k => (weekday d + Z.of_nat k) mod 7) (List.seq 0 7)).
  { rewrite days_from_iter, map_map. apply map_ext.
    intros k. now apply weekday_iter_tomorrow. }
  pose proof (weekday_range d) as Hr.
  assert (Hweek : get_day_type (Nat.iter 7 tomorrow d) = get_day_type d).
  { unfold get_day_type. rewrite (weekday_iter_tomorrow 7 d H).
    replace ((weekday d + Z.of_nat 7) mod 7) with (weekday d); [reflexivity|].
    change (Z.of_nat 7) with 7. Z.div_mod_to_equations. lia. }
  rewrite !count_day_type_by_weekday, Hw.
  remember (weekday d) as w eqn:Ew. clear Ew Hw.
  assert (C : w = 0 \/ w = 1 \/ w = 2 \/ w = 3 \/ w = 4 \/ w = 5 \/ w = 6) by lia.
  repeat split; try exact Hweek;
    repeat (destruct C as [C | C]; [subst w; reflexivity|]);
    subst w; reflexivity.
Qed.

Lemma get_day_type_week_witness :
  wf_date (mkDate 2009 3 16)
  /\ count_day_type WEEKEND (days_from (mkDate 2009 3 16) 7) = 2.
Proof.
  assert (H : wf_date (mkDate 2009 3 16)).
  { unfold wf_date. simpl. change (month_length 2009 3) with 31. lia. }
  split; [exact H|].
  exact (proj1 (get_day_type_week (mkDate 2009 3 16) H)).
Defined.

(** ** Selection: failures and winners *)

Lemma find_cheapest_hotel_raise_cases self input_str e :
  find_cheapest_hotel self input_str = Raise e
  <-> parse_input input_str = Raise e
      \/ ((exists r, parse_input input_str = Ok r)
          /\ hotels self = [] /\ e = IndexError).
Proof.
  unfold find_cheapest_hotel.
  destruct (parse_input input_str) as [[ct dates] | e'] eqn:E; simpl.
  - unfold sorted_hotel_costs.
    destruct (sort cost_key (hotel_costs self ct dates)) as [| x r] eqn:Es.
    + apply sort_nil_iff in Es. unfold hotel_costs in Es.
      apply map_eq_nil in Es. split.
      * intros H. injection H as <-. right.
        split; [now exists (ct, dates) | now split].
      * intros [H | [_ [_ ->]]]; [discriminate | reflexivity].
    + split; [discriminate|].
      intros [H | [_ [Hnil _]]]; [discriminate|].
      apply sort_head_in in Es. unfold hotel_costs in Es.
      rewrite Hnil in Es. contradiction.
  - split.
    + intros H. injection H as <-. now left.
    + intros [H | [[r Hr] _]]; [injection H as <-; reflexivity | discriminate].
Qed.

(** X13.  [find_cheapest_hotel] fails in two ways only: with the error of
    [parse_input] when the request does not parse, and with [IndexError]
    when the request parses and the catalog is empty. *)
Theorem find_cheapest_hotel_raises_iff :
  forall self input_str e,
    find_cheapest_hotel self input_str = Raise e
    <-> parse_input input_str = Raise e
        \/ ((exists r, parse_input input_str = Ok r)
            /\ hotels self = [] /\ e = IndexError).
Proof.
  intros self input_str e. apply find_cheapest_hotel_raise_cases.
Qed.

(** The first hotel of the sorted list is ranked before every hotel of the
    catalog. *)
Lemma find_cheapest_hotel_minimal self input_str customer_type dates cheapest :
  parse_input input_str = Ok (customer_type, dates) ->
  find_cheapest_hotel self input_str = Ok cheapest ->
  exists hotel,
    In hotel (hotels self) /\ name hotel = cheapest
    /\ forall other,
         In other (hotels self) ->
         ranked_before (hotel, calculate_total_cost hotel customer_type dates)
                       (other, calculate_total_cost other customer_type dates).
Proof.
  intros Hp Hf. rewrite (find_cheapest_hotel_parsed _ _ _ _ Hp) in Hf.
  unfold sorted_hotel_costs in Hf.
  destruct (sort cost_key (hotel_costs self customer_type dates))
    as [| x r] eqn:Es; [discriminate|].
  injection Hf as <-.
  pose proof (sort_head_in cost_key x _ r Es) as Hin.
  unfold hotel_costs in Hin. apply in_map_iff in Hin.
  destruct Hin as [h [<- Hh]].
  exists h. split; [exact Hh|]. split; [reflexivity|].
  intros other Ho.
  pose proof (sort_sorted cost_key (hotel_costs self customer_type dates)) as Hs.
  rewrite Es in Hs. inversion Hs as [| ? ? _ Hall]; subst.
  assert (Hin : In (other, calculate_total_cost other customer_type dates)
                   (sort cost_key (hotel_costs self customer_type dates))).
  { apply (Permutation_in _ (Permutation_sym (sort_perm cost_key _))).
    unfold hotel_costs. apply in_map_iff. now exists other. }
  rewrite Es in Hin. destruct Hin as [<- | Hin].
  - unfold ranked_before. simpl. lia.
  - apply in_order_ranked. rewrite Forall_forall in Hall. now apply Hall.
Qed.

(** X14.  A hotel that beats every other hotel of the catalog, by a lower
    cost or by a higher rating at the same cost, is the one selected,
    wherever it stands in the catalog. *)
Theorem find_cheapest_hotel_strict_winner :
  forall self input_str customer_type dates hotel,
    parse_input input_str = Ok (customer_type, dates) ->
    In hotel (hotels self) ->
    (forall other,
        In other (hotels self) ->
        other = hotel
        \/ calculate_total_cost hotel customer_type dates
           < calculate_total_cost other customer_type dates
        \/ (calculate_total_cost hotel customer_type dates
            = calculate_total_cost other customer_type dates
            /\ rating other < rating hotel)) ->
    find_cheapest_hotel self input_str = Ok (name hotel).
Proof.
  intros self input_str customer_type dates hotel Hp Hin Hbeats.
  destruct (find_cheapest_hotel self input_str) as [n | e] eqn:Hf.
  - destruct (find_cheapest_hotel_minimal _ _ _ _ _ Hp Hf)
      as [h [Hh [<- Hmin]]].
    specialize (Hmin hotel Hin). unfold ranked_before in Hmin. simpl in Hmin.
    destruct (Hbeats h Hh) as [-> | H]; [reflexivity | lia].
  - apply find_cheapest_hotel_raise_cases in Hf.
    destruct Hf as [Hf | [_ [Hnil _]]]; [congruence|].
    rewrite Hnil in Hin. contradiction.
Qed.

Lemma find_cheapest_hotel_strict_winner_witness :
  parse_input (lit "Rewards: 21Mar2009(sat)") = Ok (REWARDS, [mkDate 2009 3 21])
  /\ find_cheapest_hotel
       (mkSystem [mkHotel (lit "Ridgewood") 5 220 100 150 40;
                  mkHotel (lit "Bridgewood") 4 160 110 60 50;
                  mkHotel (lit "Lakewood") 3 110 80 90 80])
       (lit "Rewards: 21Mar2009(sat)")
     = Ok (lit "Ridgewood").
Proof.
  assert (Hp : parse_input (lit "Rewards: 21Mar2009(sat)")
               = Ok (REWARDS, [mkDate 2009 3 21])) by (vm_compute; reflexivity).
  split; [exact Hp|].
  apply (find_cheapest_hotel_strict_winner
           (mkSystem [mkHotel (lit "Ridgewood") 5 220 100 150 40;
                      mkHotel (lit "Bridgewood") 4 160 110 60 50;
                      mkHotel (lit "Lakewood") 3 110 80 90 80])
           _ _ _ (mkHotel (lit "Ridgewood") 5 220 100 150 40) Hp).
  - now left.
  - intros other [<- | [<- | [<- | []]]];
      [left; reflexivity | right; left; vm_compute; reflexivity
       | right; left; vm_compute; reflexivity].
Defined.

(** X15.  In the catalog of the constructor two hotels are dominated: for a
    rewards customer Ridgewood is always cheaper than Bridgewood, and for a
    regular customer Lakewood is always cheaper than Ridgewood, so
    Bridgewood is never selected for a rewards customer and Ridgewood never
    for a regular one. *)
Theorem find_cheapest_hotel_dominated :
  forall input_str customer_type dates cheapest,
    parse_input input_str = Ok (customer_type, dates) ->
    find_cheapest_hotel init input_str = Ok cheapest ->
    match customer_type with
    | REWARDS => cheapest = lit "Lakewood" \/ cheapest = lit "Ridgewood"
    | REGULAR => cheapest = lit "Lakewood" \/ cheapest = lit "Bridgewood"
    end.
Proof.
  intros input_str customer_type dates cheapest Hp Hf.
  destruct (find_cheapest_hotel_minimal _ _ _ _ _ Hp Hf) as [h [Hh [<- Hmin]]].
  destruct (parse_input_dates_valid _ _ _ Hp) as [Hne _].
  assert (Hn : 0 < Z.of_nat (List.length dates))
    by (destruct dates; [contradiction | simpl; lia]).
  pose proof (count_day_type_total dates) as Htot.
  pose proof (count_day_type_nonneg WEEKDAY dates) as Ha.
  pose proof (count_day_type_nonneg WEEKEND dates) as Hb.
  simpl in Hh.
  destruct customer_type.
  - destruct Hh as [<- | [<- | [<- | []]]]; [now left | now right|].
    exfalso.
    specialize (Hmin (mkHotel (lit "Lakewood") 3 110 80 90 80)
                     (or_introl eq_refl)).
    unfold ranked_before in Hmin. simpl in Hmin.
    rewrite !calculate_total_cost_by_counts in Hmin. simpl in Hmin. lia.
  - destruct Hh as [<- | [<- | [<- | []]]]; [now left | | now right].
    exfalso.
    specialize (Hmin (mkHotel (lit "Ridgewood") 5 220 100 150 40)
                     (or_intror (or_intror (or_introl eq_refl)))).
    unfold ranked_before in Hmin. simpl in Hmin.
    rewrite !calculate_total_cost_by_counts in Hmin. simpl in Hmin. lia.
Qed.

Lemma find_cheapest_hotel_dominated_witness :
  parse_input (lit "Rewards: 26Mar2009(thur), 27Mar2009(fri), 28Mar2009(sat)")
  = Ok (REWARDS, [mkDate 2009 3 26; mkDate 2009 3 27; mkDate 2009 3 28])
  /\ find_cheapest_hotel init
       (lit "Rewards: 26Mar2009(thur), 27Mar2009(fri), 28Mar2009(sat)")
     = Ok (lit "Ridgewood")
  /\ (lit "Ridgewood" = lit "Lakewood" \/ lit "Ridgewood" = lit "Ridgewood").
Proof.
  assert (Hp : parse_input
                 (lit "Rewards: 26Mar2009(thur), 27Mar2009(fri), 28Mar2009(sat)")
               = Ok (REWARDS, [mkDate 2009 3 26; mkDate 2009 3 27; mkDate 2009 3 28]))
    by (vm_compute; reflexivity).
  assert (Hf : find_cheapest_hotel init
                 (lit "Rewards: 26Mar2009(thur), 27Mar2009(fri), 28Mar2009(sat)")
               = Ok (lit "Ridgewood")) by (vm_compute; reflexivity).
  split; [exact Hp|]. split; [exact Hf|].
  exact (find_cheapest_hotel_dominated _ _ _ _ Hp Hf).
Defined.

(** X16.  The selection depends on the dates only through the number of
    weekdays and of weekend days among them: two requests of the same
    customer type with the same two numbers select the same hotel, whatever
    the dates and their order. *)
Theorem find_cheapest_hotel_by_counts :
  forall self input1 input2 customer_type dates1 dates2,
    parse_input input1 = Ok (customer_type, dates1) ->
    parse_input input2 = Ok (customer_type, dates2) ->
    count_day_type WEEKDAY dates1 = count_day_type WEEKDAY dates2 ->
    count_day_type WEEKEND dates1 = count_day_type WEEKEND dates2 ->
    find_cheapest_hotel self input1 = find_cheapest_hotel self input2.
Proof.
  intros self input1 input2 customer_type dates1 dates2 H1 H2 Hwd Hwe.
  rewrite (find_cheapest_hotel_parsed _ _ _ _ H1).
  rewrite (find_cheapest_hotel_parsed _ _ _ _ H2).
  unfold sorted_hotel_costs, hotel_costs.
  rewrite (map_ext _ (fun hotel =>
             (hotel, calculate_total_cost hotel customer_type dates2))).
  - reflexivity.
  - intros h. f_equal. rewrite !calculate_total_cost_by_counts.
    now rewrite Hwd, Hwe.
Qed.

Lemma find_cheapest_hotel_by_counts_witness :
  parse_input (lit "Regular: 20Mar2009, 21Mar2009")
  = Ok (REGULAR, [mkDate 2009 3 20; mkDate 2009 3 21])
  /\ parse_input (lit "Regular: 22Mar2009(mon), 16Mar2009")
     = Ok (REGULAR, [mkDate 2009 3 22; mkDate 2009 3 16])
  /\ find_cheapest_hotel init (lit "Regular: 20Mar2009, 21Mar2009")
     = find_cheapest_hotel init (lit "Regular: 22Mar2009(mon), 16Mar2009").
Proof.
  assert (H1 : parse_input (lit "Regular: 20Mar2009, 21Mar2009")
               = Ok (REGULAR, [mkDate 2009 3 20; mkDate 2009 3 21]))
    by (vm_compute; reflexivity).
  assert (H2 : parse_input (lit "Regular: 22Mar2009(mon), 16Mar2009")
               = Ok (REGULAR, [mkDate 2009 3 22; mkDate 2009 3 16]))
    by (vm_compute; reflexivity).
  split; [exact H1|]. split; [exact H2|].
  apply (find_cheapest_hotel_by_counts init _ _ REGULAR _ _ H1 H2);
    reflexivity.
Defined.

(** ** The detailed analysis, field by field *)

Lemma get_detailed_analysis_parsed strftime self input_str customer_type dates :
  parse_input input_str = Ok (customer_type, dates) ->
  get_detailed_analysis strftime self input_str
  = match sorted_hotel_costs self customer_type dates with
    | [] => Raise IndexError
    | x :: r =>
        Ok (mkAnalysis (CustomerType_value customer_type) (map strftime dates)
              (map (entry_of strftime customer_type dates) (x :: r))
              (name (fst x)))
    end.
Proof.
  intros Hp. unfold get_detailed_analysis. rewrite Hp. simpl.
  rewrite analysis_hotels_sorted.
  destruct (sorted_hotel_costs self customer_type dates); reflexivity.
Qed.

(** X17.  [get_detailed_analysis] returns exactly when
    [find_cheapest_hotel] does, and otherwise raises the same exception. *)
Theorem get_detailed_analysis_raises_iff :
  forall strftime self input_str e,
    get_detailed_analysis strftime self input_str = Raise e
    <-> find_cheapest_hotel self input_str = Raise e.
Proof.
  intros strftime self input_str e.
  destruct (parse_input input_str) as [[ct dates] | e'] eqn:Hp.
  - rewrite (get_detailed_analysis_parsed _ _ _ _ _ Hp).
    rewrite (find_cheapest_hotel_parsed _ _ _ _ Hp).
    destruct (sorted_hotel_costs self ct dates);
      [split; intros H; injection H as <-; reflexivity | split; discriminate].
  - unfold get_detailed_analysis, find_cheapest_hotel. rewrite Hp. simpl.
    split; intros H; injection H as <-; reflexivity.
Qed.

Lemma get_detailed_analysis_fields :
  forall strftime self input_str customer_type dates result,
    parse_input input_str = Ok (customer_type, dates) ->
    get_detailed_analysis strftime self input_str = Ok result ->
    an_customer_type result = CustomerType_value customer_type
    /\ an_dates result = map strftime dates
    /\ Permutation (an_hotels result)
         (map (fun hotel =>
                 mkEntry (name hotel) (rating hotel)
                   (calculate_total_cost hotel customer_type dates)
                   (daily_costs strftime hotel customer_type dates))
              (hotels self))
    /\ List.length (an_hotels result) = List.length (hotels self).
Proof.
  intros strftime self input_str customer_type dates result Hp Ha.
  rewrite (get_detailed_analysis_parsed _ _ _ _ _ Hp) in Ha.
  destruct (sorted_hotel_costs self customer_type dates) as [| x r] eqn:Es;
    [discriminate|].
  injection Ha as <-. cbn [an_customer_type an_dates an_hotels].
  assert (Hperm : Permutation
            (map (entry_of strftime customer_type dates) (x :: r))
            (map (fun hotel =>
                    mkEntry (name hotel) (rating hotel)
                      (calculate_total_cost hotel customer_type dates)
                      (daily_costs strftime hotel customer_type dates))
                 (hotels self))).
  { rewrite <- Es. unfold sorted_hotel_costs.
    rewrite (Permutation_map _ (sort_perm cost_key _)).
    unfold hotel_costs. rewrite map_map. reflexivity. }
  repeat split; try exact Hperm.
  apply Permutation_length in Hperm. rewrite !length_map in Hperm.
  cbn [map List.length] in *. rewrite ?length_map. exact Hperm.
Qed.

(** X18.  The analysis reports the request and the catalog: the customer
    type by its value, one formatted date per date of the request in the
    order of the request, and one entry per hotel of the catalog, each with
    the name, the rating and the total cost of its hotel. *)
Theorem get_detailed_analysis_entries :
  forall strftime self input_str customer_type dates result,
    parse_input input_str = Ok (customer_type, dates) ->
    get_detailed_analysis strftime self input_str = Ok result ->
    an_customer_type result = CustomerType_value customer_type
    /\ an_dates result = map strftime dates
    /\ Permutation (an_hotels result)
         (map (fun hotel =>
                 mkEntry (name hotel) (rating hotel)
                   (calculate_total_cost hotel customer_type dates)
                   (daily_costs strftime hotel customer_type dates))
              (hotels self))
    /\ List.length (an_hotels result) = List.length (hotels self).
Proof.
  intros strftime self input_str customer_type dates result Hp Ha.
  now apply (get_detailed_analysis_fields strftime self input_str).
Qed.

Lemma get_detailed_analysis_entries_witness :
  exists result,
    parse_input (lit "Regular: 16Mar2009") = Ok (REGULAR, [mkDate 2009 3 16])
    /\ get_detailed_analysis (fun _ => []) init (lit "Regular: 16Mar2009")
       = Ok result
    /\ List.length (an_hotels result) = List.length (hotels init).
Proof.
  assert (Hp : parse_input (lit "Regular: 16Mar2009")
               = Ok (REGULAR, [mkDate 2009 3 16])) by (vm_compute; reflexivity).
  destruct (get_detailed_analysis (fun _ => []) init (lit "Regular: 16Mar2009"))
    as [result | e] eqn:Ha.
  - exists result. split; [exact Hp|]. split; [reflexivity|].
    exact (proj2 (proj2 (proj2
             (get_detailed_analysis_entries _ _ _ _ _ _ Hp Ha)))).
  - vm_compute in Ha. discriminate Ha.
Defined.

(** X19.  Every entry of the analysis is consistent with itself: its total
    cost is the sum of the rates of its daily costs, and its daily costs
    list the dates of the analysis in their order, each with the value of
    its day type. *)
Theorem get_detailed_analysis_breakdown :
  forall strftime self input_str customer_type dates result,
    parse_input input_str = Ok (customer_type, dates) ->
    get_detailed_analysis strftime self input_str = Ok result ->
    Forall (fun entry =>
              he_total_cost entry
              = fold_right Z.add 0 (map dc_rate (he_daily_costs entry))
              /\ map dc_date (he_daily_costs entry) = an_dates result
              /\ map dc_day_type (he_daily_costs entry)
                 = map (fun date => DayType_value (get_day_type date)) dates)
           (an_hotels result).
Proof.
  intros strftime self input_str customer_type dates result Hp Ha.
  destruct (get_detailed_analysis_fields _ _ _ _ _ _ Hp Ha)
    as [_ [Hd [Hperm _]]].
  apply (Permutation_Forall (Permutation_sym Hperm)).
  apply Forall_forall. intros entry Hin. apply in_map_iff in Hin.
  destruct Hin as [h [<- _]]. cbn [he_total_cost he_daily_costs].
  rewrite Hd, calculate_total_cost_sum. unfold sum_of_rates, daily_costs.
  rewrite !map_map. repeat split.
Qed.

Lemma get_detailed_analysis_breakdown_witness :
  exists result,
    get_detailed_analysis (fun _ => []) init (lit "Regular: 20Mar2009, 21Mar2009")
    = Ok result
    /\ Forall (fun entry =>
                 he_total_cost entry
                 = fold_right Z.add 0 (map dc_rate (he_daily_costs entry))
                 /\ map dc_date (he_daily_costs entry) = an_dates result
                 /\ map dc_day_type (he_daily_costs entry)
                    = map (fun date => DayType_value (get_day_type date))
                          [mkDate 2009 3 20; mkDate 2009 3 21])
              (an_hotels result).
Proof.
  assert (Hp : parse_input (lit "Regular: 20Mar2009, 21Mar2009")
               = Ok (REGULAR, [mkDate 2009 3 20; mkDate 2009 3 21]))
    by (vm_compute; reflexivity).
  destruct (get_detailed_analysis (fun _ => []) init
              (lit "Regular: 20Mar2009, 21Mar2009")) as [result | e] eqn:Ha.
  - exists result. split; [reflexivity|].
    exact (get_detailed_analysis_breakdown _ _ _ _ _ _ Hp Ha).
  - vm_compute in Ha. discriminate Ha.
Defined.

(** X20.  The hotels of the analysis come by ascending total cost, the
    first one is the hotel named as the cheapest, and no hotel of the
    analysis costs less than it. *)
Theorem get_detailed_analysis_sorted :
  forall strftime self input_str result,
    get_detailed_analysis strftime self input_str = Ok result ->
    StronglySorted (fun x y => he_total_cost x <= he_total_cost y)
                   (an_hotels result)
    /\ exists first rest,
         an_hotels result = first :: rest
         /\ an_cheapest_hotel result = he_name first
         /\ Forall (fun entry => he_total_cost first <= he_total_cost entry)
                   (an_hotels result).
Proof.
  intros strftime self input_str result Ha.
  destruct (parse_input input_str) as [[ct dates] | e] eqn:Hp;
    [|unfold get_detailed_analysis in Ha; rewrite Hp in Ha; discriminate].
  rewrite (get_detailed_analysis_parsed _ _ _ _ _ Hp) in Ha.
  unfold sorted_hotel_costs in Ha.
  pose proof (sort_sorted cost_key (hotel_costs self ct dates)) as Hs.
  destruct (sort cost_key (hotel_costs self ct dates)) as [| x r];
    [discriminate|].
  injection Ha as <-. cbn [an_hotels an_cheapest_hotel].
  assert (Hsorted : StronglySorted
                      (fun x y => he_total_cost x <= he_total_cost y)
                      (map (entry_of strftime ct dates) (x :: r))).
  { clear -Hs. induction Hs as [| y l _ IH Hall]; [constructor|].
    cbn [map]. constructor; [exact IH|].
    apply Forall_forall. intros e He. apply in_map_iff in He.
    destruct He as [z [<- Hz]]. rewrite Forall_forall in Hall.
    specialize (Hall z Hz). apply in_order_ranked in Hall.
    unfold ranked_before in Hall. simpl. lia. }
  split; [exact Hsorted|].
  exists (entry_of strftime ct dates x), (map (entry_of strftime ct dates) r).
  split; [reflexivity|]. split; [reflexivity|].
  cbn [map] in *. inversion Hsorted as [| ? ? _ Hall]; subst.
  constructor; [lia | exact Hall].
Qed.

Lemma get_detailed_analysis_sorted_witness :
  exists result,
    get_detailed_analysis (fun _ => []) init (lit "Regular: 16Mar2009, 17Mar2009")
    = Ok result
    /\ map he_total_cost (an_hotels result) = [220; 320; 440]
    /\ StronglySorted (fun x y => he_total_cost x <= he_total_cost y)
                      (an_hotels result).
Proof.
  destruct (get_detailed_analysis (fun _ => []) init
              (lit "Regular: 16Mar2009, 17Mar2009")) as [result | e] eqn:Ha.
  - exists result. split; [reflexivity|]. split.
    + vm_compute in Ha. injection Ha as <-. reflexivity.
    + exact (proj1 (get_detailed_analysis_sorted _ _ _ _ Ha)).
  - vm_compute in Ha. discriminate Ha.
Defined.

(** X21.  The customer type of the analysis is the tier of the request as
    written, trimmed: the value goes to the enumeration and back
    unchanged. *)
Theorem get_detailed_analysis_customer_type :
  forall strftime self tier segment result,
    occurs ":" tier = false ->
    get_detailed_analysis strftime self (tier ++ ":"%char :: segment) = Ok result ->
    an_customer_type result = strip tier
    /\ exists customer_type,
         CustomerType_of_value (an_customer_type result) = Some customer_type
         /\ CustomerType_value customer_type = strip tier.
Proof.
  intros strftime self tier segment result Ht Ha.
  destruct (parse_input (tier ++ ":"%char :: segment))
    as [[ct dates] | e] eqn:Hp;
    [|unfold get_detailed_analysis in Ha; rewrite Hp in Ha; discriminate].
  destruct (get_detailed_analysis_fields _ _ _ _ _ _ Hp Ha) as [E _].
  apply (parse_input_success_cases tier segment ct dates Ht) in Hp.
  destruct Hp as [Hv _].
  split; [congruence|]. exists ct. split; [|now symmetry].
  rewrite E. now apply CustomerType_of_value_Some.
Qed.

Lemma get_detailed_analysis_customer_type_witness :
  exists result,
    occurs ":" (lit " Rewards ") = false
    /\ get_detailed_analysis (fun _ => []) init (lit " Rewards : 21Mar2009")
       = Ok result
    /\ an_customer_type result = lit "Rewards".
Proof.
  destruct (get_detailed_analysis (fun _ => []) init (lit " Rewards : 21Mar2009"))
    as [result | e] eqn:Ha.
  - exists result. split; [reflexivity|]. split; [reflexivity|].
    exact (proj1 (get_detailed_analysis_customer_type (fun _ => []) init
                    (lit " Rewards ") (lit " 21Mar2009") result eq_refl Ha)).
  - vm_compute in Ha. discriminate Ha.
Defined.

(** ** The cost the test utilities expect *)

Import TestUtils.

Lemma expected_cost_loop_agrees (hotel : Hotel) (info : hotel_info)
  (customer_type : CustomerType) (date_strs : list str)
  (dates : list datetime) (total : Z) :
  hi_weekday_regular info = weekday_regular hotel ->
  hi_weekday_rewards info = weekday_rewards hotel ->
  hi_weekend_regular info = weekend_regular hotel ->
  hi_weekend_rewards info = weekend_rewards hotel ->
  Forall2 (fun s d => strptime s = Some d) date_strs dates ->
  expected_cost_loop info (CustomerType_value customer_type) date_strs total
  = Returns (total + calculate_total_cost hotel customer_type dates).
Proof.
  intros H1 H2 H3 H4 Hall. revert total.
  induction Hall as [| s d ss ds Hs _ IH]; intros total.
  - simpl. f_equal. change (calculate_total_cost hotel customer_type []) with 0.
    lia.
  - cbn [expected_cost_loop]. rewrite Hs, IH, calculate_total_cost_cons.
    f_equal. unfold get_day_type.
    destruct customer_type; destruct (5 <=? weekday d); simpl; lia.
Qed.

(** X22.  The expected cost of the test utilities is the cost the system
    computes: for every hotel of the catalog, named by its name, every
    customer type, named by its value, and every list of date strings that
    [strptime] accepts, [calculate_expected_cost] returns
    [calculate_total_cost] of the hotel on the parsed dates. *)
Theorem calculate_expected_cost_agrees :
  forall hotel customer_type date_strs dates,
    In hotel (hotels init) ->
    Forall2 (fun s d => strptime s = Some d) date_strs dates ->
    calculate_expected_cost (name hotel) (CustomerType_value customer_type)
      date_strs
    = Returns (calculate_total_cost hotel customer_type dates).
Proof.
  intros hotel customer_type date_strs dates Hin Hall.
  unfold calculate_expected_cost.
  simpl in Hin. destruct Hin as [<- | [<- | [<- | []]]]; cbn [name];
    match goal with
    | |- match ?g with _ => _ end = _ =>
        let v := eval vm_compute in g in change g with v
    end;
    cbv iota;
    match goal with
    | |- expected_cost_loop ?i _ _ _ = Returns (calculate_total_cost ?h _ _) =>
        exact (expected_cost_loop_agrees h i customer_type date_strs dates 0
                 eq_refl eq_refl eq_refl eq_refl Hall)
    end.
Qed.

Lemma calculate_expected_cost_agrees_witness :
  Forall2 (fun s d => strptime s = Some d)
          [lit "20Mar2009"; lit "21Mar2009"; lit "22Mar2009"]
          [mkDate 2009 3 20; mkDate 2009 3 21; mkDate 2009 3 22]
  /\ calculate_expected_cost (lit "Bridgewood") (lit "Regular")
       [lit "20Mar2009"; lit "21Mar2009"; lit "22Mar2009"]
     = Returns 280.
Proof.
  assert (H : Forall2 (fun s d => strptime s = Some d)
                [lit "20Mar2009"; lit "21Mar2009"; lit "22Mar2009"]
                [mkDate 2009 3 20; mkDate 2009 3 21; mkDate 2009 3 22])
    by (repeat (constructor; [vm_compute; reflexivity|]); constructor).
  split; [exact H|].
  exact (calculate_expected_cost_agrees
           (mkHotel (lit "Bridgewood") 4 160 110 60 50) REGULAR _ _
           (or_intror (or_introl eq_refl)) H).
Defined.

Lemma expected_cost_loop_outcome (info : hotel_info) (customer_type : str)
  (date_strs : list str) (total : Z) :
  (exists total', expected_cost_loop info customer_type date_strs total
                  = Returns total')
  /\ Forall (fun s => strptime s <> None) date_strs
  \/ expected_cost_loop info customer_type date_strs total = RaisesValueError
     /\ Exists (fun s => strptime s = None) date_strs.
Proof.
  revert total. induction date_strs as [| s ss IH]; intros total.
  - left. split; [now exists total | constructor].
  - cbn [expected_cost_loop]. destruct (strptime s) as [d|] eqn:Es.
    + destruct (IH (total +
                    (if str_eqb customer_type (lit "Regular")
                     then if 5 <=? weekday d then hi_weekend_regular info
                          else hi_weekday_regular info
                     else if 5 <=? weekday d then hi_weekend_rewards info
                          else hi_weekday_rewards info)))
        as [[Hr Hall] | [Hr Hex]].
      * left. split; [exact Hr|]. constructor; [congruence | exact Hall].
      * right. split; [exact Hr | now apply Exists_cons_tl].
    + right. split; [reflexivity | now apply Exists_cons_hd].
Qed.

Lemma expected_cost_loop_not_regular (info : hotel_info) (customer_type : str)
  (date_strs : list str) (total : Z) :
  customer_type <> lit "Regular" ->
  expected_cost_loop info customer_type date_strs total
  = expected_cost_loop info (lit "Rewards") date_strs total.
Proof.
  intros Hne. revert total. induction date_strs as [| s ss IH]; intros total.
  - reflexivity.
  - cbn [expected_cost_loop]. destruct (strptime s) as [d|]; [|reflexivity].
    destruct (str_eqb customer_type (lit "Regular")) eqn:E;
      [apply str_eqb_eq in E; contradiction|].
    change (str_eqb (lit "Rewards") (lit "Regular")) with false.
    cbv iota. apply IH.
Qed.

(** X23.  How [calculate_expected_cost] ends.  It raises [KeyError] exactly
    when the hotel name is none of the three names of [HOTEL_INFO], whatever
    the dates; for a known name it returns a cost exactly when [strptime]
    accepts every date string as it stands, and raises [ValueError]
    otherwise, so that a date with an annotation, which the system accepts,
    is refused; and every customer type other than the text [Regular] is
    priced as [Rewards]. *)
Theorem calculate_expected_cost_outcomes :
  forall hotel_name customer_type date_strs,
    let known := In hotel_name [lit "Lakewood"; lit "Bridgewood"; lit "Ridgewood"] in
    let outcome := calculate_expected_cost hotel_name customer_type date_strs in
    (outcome = RaisesKeyError hotel_name <-> ~ known)
    /\ ((exists total, outcome = Returns total)
        <-> known /\ Forall (fun s => strptime s <> None) date_strs)
    /\ (outcome = RaisesValueError
        <-> known /\ Exists (fun s => strptime s = None) date_strs)
    /\ (customer_type <> lit "Regular" ->
        outcome = calculate_expected_cost hotel_name (lit "Rewards") date_strs).
Proof.
  intros hotel_name customer_type date_strs known outcome.
  subst outcome. unfold calculate_expected_cost.
  assert (Hget : (exists info, dict_get HOTEL_INFO hotel_name = Some info) /\ known
                 \/ dict_get HOTEL_INFO hotel_name = None /\ ~ known).
  { subst known. unfold HOTEL_INFO. cbn [dict_get In].
    destruct (str_eqb (lit "Lakewood") hotel_name) eqn:E1;
      [apply str_eqb_eq in E1; left; split; [eauto | auto]|].
    destruct (str_eqb (lit "Bridgewood") hotel_name) eqn:E2;
      [apply str_eqb_eq in E2; left; split; [eauto | auto]|].
    destruct (str_eqb (lit "Ridgewood") hotel_name) eqn:E3;
      [apply str_eqb_eq in E3; left; split; [eauto | auto]|].
    right. split; [reflexivity|].
    intros [<- | [<- | [<- | []]]]; rewrite str_eqb_refl in *; discriminate. }
  destruct Hget as [[[info ->] Hk] | [-> Hk]].
  - pose proof (expected_cost_loop_outcome info customer_type date_strs 0)
      as Hloop.
    split; [|split; [|split]].
    + split; [|intros H; contradiction].
      intros H. destruct Hloop as [[[t Ht] _] | [Ht _]]; congruence.
    + split.
      * intros [t Ht]. split; [exact Hk|].
        destruct Hloop as [[_ Hall] | [Hr _]]; [exact Hall | congruence].
      * intros [_ Hall]. destruct Hloop as [[Hr _] | [_ Hex]]; [exact Hr|].
        exfalso. rewrite Exists_exists in Hex. rewrite Forall_forall in Hall.
        destruct Hex as [s [Hs Hn]]. exact (Hall s Hs Hn).
    + split.
      * intros H. split; [exact Hk|].
        destruct Hloop as [[[t Ht] _] | [_ Hex]]; [congruence | exact Hex].
      * intros [_ Hex]. destruct Hloop as [[_ Hall] | [Hr _]]; [|exact Hr].
        exfalso. rewrite Exists_exists in Hex. rewrite Forall_forall in Hall.
        destruct Hex as [s [Hs Hn]]. exact (Hall s Hs Hn).
    + intros Hne. now apply expected_cost_loop_not_regular.
  - split; [|split; [|split]].
    + split; [intros _; exact Hk | reflexivity].
    + split; [intros [t Ht]; discriminate | intros [H _]; contradiction].
    + split; [discriminate | intros [H _]; contradiction].
    + reflexivity.
Qed.

Lemma calculate_expected_cost_outcomes_witness :
  lit "Premium" <> lit "Regular"
  /\ calculate_expected_cost (lit "Lakewood") (lit "Premium") [lit "16Mar2009"]
     = calculate_expected_cost (lit "Lakewood") (lit "Rewards") [lit "16Mar2009"]
  /\ calculate_expected_cost (lit "Lakewood") (lit "Premium") [lit "16Mar2009"]
     = Returns 80.
Proof.
  assert (H : lit "Premium" <> lit "Regular") by discriminate.
  split; [exact H|]. split; [|reflexivity].
  exact (proj2 (proj2 (proj2
           (calculate_expected_cost_outcomes (lit "Lakewood") (lit "Premium")
              [lit "16Mar2009"]))) H).
Defined.
